(** * opencode-momo: session memory orchestration

    A shallow embedding of the TypeScript sources of the plugin
    (compaction tracker, privacy filter, tag derivation, configuration
    resolution, context formatting, chat.message injection hook and
    ingestion polling) together with the properties stated about them.

    Conventions.
    - A JavaScript string is a [string]; one [ascii] stands for one
      UTF-16 code unit in the range 0..255.
    - A value of type [T | undefined] is an [option T]; [None] is
      [undefined] (or [null] where the source accepts both).
    - What [JSON.parse] returns is kept untyped ([Config.Json]): the
      type assertion on it checks nothing at run time, and a property
      read on [null] ends the function with a [TypeError].  The typed
      arguments of the other functions are taken at their declared
      types.
    - [Date.now()] readings are integers (milliseconds) passed in
      explicitly; module-level mutable state is passed explicitly. *)

From stdpp Require Import gmap strings list.
From Stdlib Require Import ZArith Lia Ascii.

Local Open Scope string_scope.
Local Open Scope list_scope.
Local Open Scope Z_scope.

(** JavaScript truthiness of an optional string: [undefined] and the
    empty string are falsy. *)
Definition truthy (v : option string) : bool :=
  match v with
  | Some (String _ _) => true
  | _ => false
  end.

(* ================================================================== *)
(** ** src/services/compaction.ts *)

Module Compaction.

Record CompactionSessionState := {
  lastCompaction : Z;
  inProgress : bool;
}.

Definition COMPACTION_COOLDOWN_MS : Z := 30000.

(** The fields of [event.properties.info] that the handler reads.
    [summary] and [finish] are optional on an assistant message. *)
Record MessageInfo := {
  role : string;
  sessionID : string;
  summary : option bool;
  finish : option string;
}.

(** The host events; every type other than the three handled ones
    falls through the [switch]. *)
Inductive Event :=
| SessionCompacted (sessionID : string)
| MessageUpdated (info : MessageInfo)
| SessionDeleted (id : string)
| OtherEvent (type : string).

(** Argument of [momo.conversations.ingest]. *)
Record IngestRequest := {
  messages : list (string * string);
  containerTag : string;
  sessionId : string;
  memoryType : string;
}.

(** [sessionStates.get], creating the entry when absent. *)
Definition getState (sessionID : string)
    (sessionStates : gmap string CompactionSessionState)
    : CompactionSessionState * gmap string CompactionSessionState :=
  match sessionStates !! sessionID with
  | Some state => (state, sessionStates)
  | None =>
      let state := {| lastCompaction := 0; inProgress := false |} in
      (state, <[sessionID := state]> sessionStates)
  end.

Definition marker (sessionID containerTag : string) : IngestRequest :=
  {| messages :=
       [("assistant",
         "[Session compaction summary for session " +:+ sessionID +:+ "]")];
     containerTag := containerTag;
     sessionId := sessionID;
     memoryType := "episode" |}.

Definition is_true (v : option bool) : bool :=
  match v with Some true => true | _ => false end.

(** [handleCompactionEvent]: [now] is the reading [Date.now()] gives
    when the handler runs; the result is the store after the event and
    the calls made to [momo.conversations.ingest] (a rejected call is
    caught and discarded, so the outcome of the call does not change
    the store). *)
Definition handleCompactionEvent (event : Event) (now : Z)
    (containerTag : string)
    (sessionStates : gmap string CompactionSessionState)
    : gmap string CompactionSessionState * list IngestRequest :=
  match event with
  | SessionCompacted sessionID =>
      let '(state, states) := getState sessionID sessionStates in
      (<[sessionID := {| lastCompaction := lastCompaction state;
                         inProgress := true |}]> states, [])
  | MessageUpdated info =>
      if negb (String.eqb (role info) "assistant") then (sessionStates, [])
      else if negb (is_true (summary info)) || negb (truthy (finish info))
      then (sessionStates, [])
      else
        let '(state, states) := getState (sessionID info) sessionStates in
        if negb (inProgress state) then (states, [])
        else if now - lastCompaction state <? COMPACTION_COOLDOWN_MS then
          (<[sessionID info := {| lastCompaction := lastCompaction state;
                                  inProgress := false |}]> states, [])
        else
          (<[sessionID info := {| lastCompaction := now;
                                  inProgress := false |}]> states,
           [marker (sessionID info) containerTag])
  | SessionDeleted id => (delete id sessionStates, [])
  | OtherEvent _ => (sessionStates, [])
  end.

(** The [lastCompaction] that [getState] hands out for a session. *)
Definition last_of (sessionStates : gmap string CompactionSessionState)
    (sessionID : string) : Z :=
  from_option lastCompaction 0 (sessionStates !! sessionID).

(** Events handled in order, each with its own clock reading. *)
Fixpoint run (containerTag : string) (events : list (Event * Z))
    (sessionStates : gmap string CompactionSessionState)
    : gmap string CompactionSessionState * list IngestRequest :=
  match events with
  | [] => (sessionStates, [])
  | (event, now) :: rest =>
      let '(states, out) :=
        handleCompactionEvent event now containerTag sessionStates in
      let '(final, out') := run containerTag rest states in
      (final, out ++ out')
  end.

(** The two host events of one compaction of [sessionID]:
    [session.compacted], then the finished summary message. *)
Definition CompactionStarted (sessionID : string) : Event :=
  SessionCompacted sessionID.

Definition SummaryReady (sessionID : string) : Event :=
  MessageUpdated {| role := "assistant"; sessionID := sessionID;
                    summary := Some true; finish := Some "stop" |}.

Definition SessionEnded (sessionID : string) : Event :=
  SessionDeleted sessionID.

Definition compaction_at (sessionID : string) (now : Z) : list (Event * Z) :=
  [(CompactionStarted sessionID, now); (SummaryReady sessionID, now)].

End Compaction.

(* ================================================================== *)
(** ** src/services/privacy.ts *)

Module Privacy.

Definition open_tag : string := "<private>".
Definition close_tag : string := "</private>".

Fixpoint drop (n : nat) (s : string) : string :=
  match n, s with
  | S n', String _ s' => drop n' s'
  | _, _ => s
  end.

(** Whether the literal [p] matches at the start of [s]. *)
Fixpoint starts_with (p s : string) : bool :=
  match p, s with
  | "", _ => true
  | String a p', String b s' => Ascii.eqb a b && starts_with p' s'
  | String _ _, "" => false
  end.

(** Number of code units in front of the first [</private>] of [s]. *)
Fixpoint find_close (s : string) : option nat :=
  if starts_with close_tag s then Some 0%nat
  else match s with
       | "" => None
       | String _ s' => S <$> find_close s'
       end.

(** The regular expression [<private>[\s\S]*?</private>] tried at the
    start of [s]: the length of its match.  [[\s\S]] accepts every code
    unit, line terminators included, and the lazy star stops at the
    first close tag after the open tag. *)
Definition match_here (s : string) : option nat :=
  if starts_with open_tag s
  then (λ k, 9 + k + 10)%nat <$> find_close (drop 9 s)
  else None.

(** [text.replace(/<private>[\s\S]*?<\/private>/g, "")], scanning left
    to right: [skip] counts the code units of the current match that
    are still to be dropped; outside a match, the expression is tried
    at each position in turn and a position where it fails is kept. *)
Fixpoint replace_private (skip : nat) (s : string) : string :=
  match s with
  | "" => ""
  | String c s' =>
      match skip with
      | S n => replace_private n s'
      | O =>
          match match_here s with
          | Some (S n) => replace_private n s'
          | _ => String c (replace_private 0 s')
          end
      end
  end.

(** White space and line terminators of ECMAScript among the code
    units 0..255: TAB, LF, VT, FF, CR, SP and NBSP. *)
Definition is_space (c : ascii) : bool :=
  let n := nat_of_ascii c in
  (Nat.leb 9 n && Nat.leb n 13) || Nat.eqb n 32 || Nat.eqb n 160.

Fixpoint trimStart (s : string) : string :=
  match s with
  | String c s' => if is_space c then trimStart s' else s
  | "" => ""
  end.

Fixpoint trimEnd (s : string) : string :=
  match s with
  | "" => ""
  | String c s' =>
      match trimEnd s' with
      | "" => if is_space c then "" else String c ""
      | r => String c r
      end
  end.

Definition trim (s : string) : string := trimEnd (trimStart s).

(** [text] is [None] when the caller passes [undefined]. *)
Definition stripPrivateContent (text : option string) : string :=
  if negb (truthy text) then ""
  else match text with
       | Some t => trim (replace_private 0 t)
       | None => ""
       end.

Definition isFullyPrivate (text : option string) : bool :=
  Nat.eqb (String.length (stripPrivateContent text)) 0.

(** *** Vocabulary for the properties of the filter *)

(** The literal [p] occurs somewhere in [s]. *)
Fixpoint occurs (p s : string) : bool :=
  starts_with p s
  || match s with "" => false | String _ s' => occurs p s' end.

(** Some open tag of [s] has a close tag after it. *)
Fixpoint has_span (s : string) : bool :=
  (starts_with open_tag s && occurs close_tag (drop 9 s))
  || match s with "" => false | String _ s' => has_span s' end.

(** A text given by its spans, each with the text in front of it and
    its body, and the text after the last span. *)
Fixpoint assemble (spans : list (string * string)) (tail : string)
    : string :=
  match spans with
  | [] => tail
  | (pre, body) :: rest =>
      pre +:+ open_tag +:+ body +:+ close_tag +:+ assemble rest tail
  end.

(** The same text without its spans. *)
Fixpoint kept (spans : list (string * string)) (tail : string) : string :=
  match spans with
  | [] => tail
  | (pre, _) :: rest => pre +:+ kept rest tail
  end.

(** The text in front of a span holds no open tag and the body of the
    span no close tag: the span opens at its first open tag and closes
    at the first close tag after that. *)
Definition clean_span (span : string * string) : bool :=
  negb (occurs open_tag span.1) && negb (occurs close_tag span.2).

(** The code unit [x] occurs in [s]. *)
Fixpoint has_char (x : ascii) (s : string) : bool :=
  match s with
  | "" => false
  | String c s' => Ascii.eqb c x || has_char x s'
  end.

Fixpoint all_space (s : string) : bool :=
  match s with
  | "" => true
  | String c s' => is_space c && all_space s'
  end.

Definition first_char (s : string) : option ascii :=
  match s with "" => None | String c _ => Some c end.

Fixpoint last_char (s : string) : option ascii :=
  match s with
  | "" => None
  | String c "" => Some c
  | String _ s' => last_char s'
  end.

(** Neither the first nor the last code unit is white space. *)
Definition unpadded (s : string) : bool :=
  negb (from_option is_space false (first_char s))
  && negb (from_option is_space false (last_char s)).

End Privacy.

(* ================================================================== *)
(** ** src/services/tags.ts *)

Module Tags.

(** [ToInt32]: the operands of [^] are reduced to signed 32 bits. *)
Definition toInt32 (x : Z) : Z := (x + 2^31) mod 2^32 - 2^31.

(** [x >>> 0]. *)
Definition toUint32 (x : Z) : Z := x mod 2^32.

Definition charCode (c : ascii) : Z := Z.of_nat (nat_of_ascii c).

Definition hex_digit (d : Z) : ascii :=
  if d <? 10 then ascii_of_nat (Z.to_nat (48 + d))
  else ascii_of_nat (Z.to_nat (87 + d)).

Fixpoint hex_go (digits : nat) (n : Z) (acc : string) : string :=
  match digits with
  | O => acc
  | S k =>
      let acc' := String (hex_digit (n mod 16)) acc in
      if n / 16 =? 0 then acc' else hex_go k (n / 16) acc'
  end.

(** [n.toString(16)] for [0 <= n < 2^32]: at most eight digits. *)
Definition toString16 (n : Z) : string := hex_go 8 n "".

Fixpoint hash_loop (h : Z) (input : string) : Z :=
  match input with
  | "" => h
  | String c rest => hash_loop (Z.lxor (toInt32 (h * 33)) (charCode c)) rest
  end.

Definition simpleHash (input : string) : string :=
  toString16 (toUint32 (hash_loop 5381 input)).

Fixpoint repeat0 (n : nat) : string :=
  match n with O => "" | S k => String "0" (repeat0 k) end.

Definition padStart8 (s : string) : string :=
  repeat0 (8 - String.length s) +:+ s.

(** [s.slice(-8)]. *)
Definition slice_last8 (s : string) : string :=
  Privacy.drop (String.length s - 8) s.

Definition shortHash (input : string) : string :=
  slice_last8 (padStart8 (simpleHash input)).

(** [toLowerCase] on the code units 0..255. *)
Definition lower (c : ascii) : ascii :=
  let n := nat_of_ascii c in
  if (Nat.leb 65 n && Nat.leb n 90)
     || (Nat.leb 192 n && Nat.leb n 222 && negb (Nat.eqb n 215))
  then ascii_of_nat (n + 32) else c.

Fixpoint toLowerCase (s : string) : string :=
  match s with
  | "" => ""
  | String c s' => String (lower c) (toLowerCase s')
  end.

Definition is_slug_char (c : ascii) : bool :=
  let n := nat_of_ascii c in
  (Nat.leb 97 n && Nat.leb n 122) || (Nat.leb 48 n && Nat.leb n 57).

(** [.replace(/[^a-z0-9]+/g, "-")]; [in_run] holds inside a run that
    has already been replaced. *)
Fixpoint dash_runs (in_run : bool) (s : string) : string :=
  match s with
  | "" => ""
  | String c s' =>
      if is_slug_char c then String c (dash_runs false s')
      else if in_run then dash_runs true s'
      else String "-" (dash_runs true s')
  end.

Fixpoint drop_leading (p : ascii → bool) (s : string) : string :=
  match s with
  | String c s' => if p c then drop_leading p s' else s
  | "" => ""
  end.

Fixpoint drop_trailing (p : ascii → bool) (s : string) : string :=
  match s with
  | "" => ""
  | String c s' =>
      match drop_trailing p s' with
      | "" => if p c then "" else String c ""
      | r => String c r
      end
  end.

Definition is_dash (c : ascii) : bool := Ascii.eqb c "-".
Definition is_sep (c : ascii) : bool := Ascii.eqb c "/" || Ascii.eqb c "\".

Fixpoint take (n : nat) (s : string) : string :=
  match n, s with
  | S n', String c s' => String c (take n' s')
  | _, _ => ""
  end.

Definition slugify (value : string) : string :=
  take 80
    (drop_trailing is_dash
       (drop_leading is_dash (dash_runs false (toLowerCase value)))).

(** [a || b] on strings. *)
Definition or_else (a b : string) : string :=
  match a with "" => b | _ => a end.

Record TagOverrides := {
  containerTagUser : option string;
  containerTagProject : option string;
}.

Record TagPair := { user : string; project : string }.

Section Host.
(** The host: the account name [os.userInfo().username] and
    [basename] of [node:path]. *)
Variable username : string.
Variable basename : string → string.

Definition userTag : string :=
  "opencode-user-" +:+ simpleHash (or_else username "unknown").

Definition projectTag (directory : string) : string :=
  let dir := or_else directory "." in
  let projectName := basename (drop_trailing is_sep dir) in
  let slug := or_else (slugify projectName) "project" in
  let hash := shortHash dir in
  "ocp-" +:+ slug +:+ "-" +:+ hash.

Definition getTags (directory : string) : TagPair :=
  {| user := userTag; project := projectTag directory |}.

(** [overrides] is [None] when the argument is omitted. *)
Definition getTagsWithOverrides (directory : string)
    (overrides : option TagOverrides) : TagPair :=
  let tags := getTags directory in
  let tags :=
    if truthy (overrides ≫= containerTagUser)
    then {| user := default "" (overrides ≫= containerTagUser);
            project := project tags |}
    else tags in
  let tags :=
    if truthy (overrides ≫= containerTagProject)
    then {| user := user tags;
            project := default "" (overrides ≫= containerTagProject) |}
    else tags in
  tags.
End Host.

Fixpoint has_slash (s : string) : bool :=
  match s with
  | "" => false
  | String c rest => Ascii.eqb c "/" || has_slash rest
  end.

(** [path.posix.basename] of a path without trailing separators: the
    part after the last [/]. *)
Fixpoint posix_basename (path : string) : string :=
  match path with
  | "" => ""
  | String c rest =>
      if has_slash rest then posix_basename rest
      else if Ascii.eqb c "/" then rest else path
  end.

End Tags.

(* ================================================================== *)
(** ** src/config.ts *)

Module Config.

(** What [JSON.parse] returns.  A number is kept as its text; an object
    is the list of its properties, each key once. *)
#[warnings="-register-all"] Inductive Json :=
| JNull
| JBool (b : bool)
| JNumber (literal : string)
| JString (s : string)
| JArray (items : list Json)
| JObject (properties : list (string * Json)).

(** A JavaScript value as a property or a variable holds it: [None] is
    [undefined]. *)
Definition Value : Type := option Json.

(** How a function that reads properties ends: with a value, or with
    the [TypeError] of a property read on [null]. *)
Inductive Result (A : Type) :=
| Ok (a : A)
| TypeError.
Arguments Ok {A} a.
Arguments TypeError {A}.

Definition bind {A B} (r : Result A) (k : A → Result B) : Result B :=
  match r with
  | Ok a => k a
  | TypeError => TypeError
  end.

(** The declared type of a field is [string]; at run time it holds
    whatever the sources hold. *)
Record MomoConfig := {
  apiKey : Value;
  baseUrl : Value;
  containerTagUser : Value;
  containerTagProject : Value;
}.

Definition DEFAULT_BASE_URL : string := "http://localhost:3000".

(** [{}]. *)
Definition empty_file : Json := JObject [].

(** [process.env], the variables that are read. *)
Record Env := {
  MOMO_API_KEY : option string;
  MOMO_BASE_URL : option string;
  MOMO_CONTAINER_TAG_USER : option string;
  MOMO_CONTAINER_TAG_PROJECT : option string;
  XDG_CONFIG_HOME : option string;
}.

(** What the file system holds at a path: nothing, something
    [readFileSync] fails on, or text. *)
Inductive FileState :=
| Absent
| Unreadable
| Content (raw : string).

Fixpoint own_property (key : string) (properties : list (string * Json))
    : Value :=
  match properties with
  | [] => None
  | (k, v) :: rest => if String.eqb k key then Some v
                      else own_property key rest
  end.

(** [object.key] for one of the four keys of a configuration, none of
    which is a property of a string, a number, a boolean or an array:
    the read fails on [null] and gives [undefined] on every other value
    that is not an object with that property. *)
Definition get (object : Json) (key : string) : Result Value :=
  match object with
  | JNull => TypeError
  | JObject properties => Ok (own_property key properties)
  | _ => Ok None
  end.

Definition is_nullish (v : Value) : bool :=
  match v with
  | None | Some JNull => true
  | Some _ => false
  end.

(** [a ?? b]: [b] counts only when [a] is [null] or [undefined]. *)
Definition nullish (a b : Result Value) : Result Value :=
  match a with
  | TypeError => TypeError
  | Ok v => if is_nullish v then b else Ok v
  end.

(** The value of [process.env.NAME]: a string or [undefined]. *)
Definition env_value (variable : option string) : Value :=
  match variable with
  | Some s => Some (JString s)
  | None => None
  end.

Section Host.
(** Outside this file: [join] of [node:path], [homedir()],
    [stripJsoncComments] of [services/jsonc], [JSON.parse], which is
    [None] when it throws, and the comparison [v > 0] of a parsed value
    with zero. *)
Variable join : list string → string.
Variable homedir : string.
Variable stripJsoncComments : string → string.
Variable JSON_parse : string → option Json.
Variable above_zero : Json → bool.

Variable env : Env.
Variable fs : string → FileState.

Definition getConfigDir : string :=
  if truthy (XDG_CONFIG_HOME env)
  then join [default "" (XDG_CONFIG_HOME env); "opencode"]
  else join [homedir; ".config"; "opencode"].

Definition existsSync (path : string) : bool :=
  match fs path with Absent => false | _ => true end.

(** The body of the [try] gives [Some]; [None] is the [catch]. *)
Definition try_read (configPath : string) : option Json :=
  match fs configPath with
  | Content raw => JSON_parse (stripJsoncComments raw)
  | Absent | Unreadable => None
  end.

Definition readJsoncConfigFile (configPath : string) : Json :=
  match try_read configPath with
  | Some parsed => parsed
  | None => empty_file
  end.

Definition readConfigFile : Json :=
  readJsoncConfigFile (join [getConfigDir; "momo.jsonc"]).

Definition readProjectConfigFile (directory : option string) : Json :=
  if negb (truthy directory) then empty_file
  else
    let dir := default "" directory in
    let dotPath := join [dir; ".momo.jsonc"] in
    if existsSync dotPath then readJsoncConfigFile dotPath
    else
      let plainPath := join [dir; "momo.jsonc"] in
      if existsSync plainPath then readJsoncConfigFile plainPath
      else empty_file.

(** The fields of the object literal are computed in the order they are
    written; the first read on [null] ends the function. *)
Definition loadConfig (directory : option string) : Result MomoConfig :=
  let globalConfig := readConfigFile in
  let projectConfig := readProjectConfigFile directory in
  let envApiKey := env_value (MOMO_API_KEY env) in
  let envBaseUrl := env_value (MOMO_BASE_URL env) in
  let envContainerTagUser := env_value (MOMO_CONTAINER_TAG_USER env) in
  let envContainerTagProject :=
    env_value (MOMO_CONTAINER_TAG_PROJECT env) in
  bind (nullish (nullish (Ok envApiKey) (get projectConfig "apiKey"))
          (get globalConfig "apiKey")) (λ apiKey,
  bind (nullish
          (nullish (nullish (Ok envBaseUrl) (get projectConfig "baseUrl"))
             (get globalConfig "baseUrl"))
          (Ok (Some (JString DEFAULT_BASE_URL)))) (λ baseUrl,
  bind (nullish
          (nullish (Ok envContainerTagUser)
             (get projectConfig "containerTagUser"))
          (get globalConfig "containerTagUser")) (λ containerTagUser,
  bind (nullish
          (nullish (Ok envContainerTagProject)
             (get projectConfig "containerTagProject"))
          (get globalConfig "containerTagProject")) (λ containerTagProject,
  Ok {| apiKey := apiKey;
        baseUrl := baseUrl;
        containerTagUser := containerTagUser;
        containerTagProject := containerTagProject |})))).

(** [config.apiKey != null && config.apiKey.length > 0].  A number and
    a boolean have no [length], and [undefined > 0] is false; an object
    has the [length] it holds as a property, if any. *)
Definition isConfigured (directory : option string) : Result bool :=
  bind (loadConfig directory) (λ config,
  Ok (match apiKey config with
      | None | Some JNull => false
      | Some (JString s) => Nat.ltb 0 (String.length s)
      | Some (JArray items) => Nat.ltb 0 (length items)
      | Some (JBool _) | Some (JNumber _) => false
      | Some (JObject properties) =>
          match own_property "length" properties with
          | Some v => above_zero v
          | None => false
          end
      end)).

(** The single-level variant of [loadConfig]: the global file only,
    and environment variables for the key and the URL only. *)
Definition loadConfig_single : Result MomoConfig :=
  let fileConfig := readConfigFile in
  let envApiKey := env_value (MOMO_API_KEY env) in
  let envBaseUrl := env_value (MOMO_BASE_URL env) in
  bind (nullish (Ok envApiKey) (get fileConfig "apiKey")) (λ apiKey,
  bind (nullish (nullish (Ok envBaseUrl) (get fileConfig "baseUrl"))
          (Ok (Some (JString DEFAULT_BASE_URL)))) (λ baseUrl,
  bind (get fileConfig "containerTagUser") (λ containerTagUser,
  bind (get fileConfig "containerTagProject") (λ containerTagProject,
  Ok {| apiKey := apiKey;
        baseUrl := baseUrl;
        containerTagUser := containerTagUser;
        containerTagProject := containerTagProject |})))).

(** *** Vocabulary for the properties of the resolver *)


(** What a file stands for as a source: the value its text parses to,
    and the empty object when it is missing, unreadable or malformed. *)
Definition source_at (path : string) : Json :=
  match fs path with
  | Content raw =>
      match JSON_parse (stripJsoncComments raw) with
      | Some value => value
      | None => JObject []
      end
  | Absent | Unreadable => JObject []
  end.

(** The global file: [momo.jsonc] under [$XDG_CONFIG_HOME/opencode], or
    under [~/.config/opencode] when the variable is unset or empty. *)
Definition global_path : string :=
  match XDG_CONFIG_HOME env with
  | Some (String c xdg) => join [join [String c xdg; "opencode"]; "momo.jsonc"]
  | _ => join [join [homedir; ".config"; "opencode"]; "momo.jsonc"]
  end.

Definition global_source : Json := source_at global_path.

(** The project-local file: the dotted name when something is there,
    else the plain name; nothing without a project directory. *)
Definition project_source (directory : option string) : Json :=
  match directory with
  | Some (String c dir) =>
      match fs (join [String c dir; ".momo.jsonc"]) with
      | Absent => source_at (join [String c dir; "momo.jsonc"])
      | _ => source_at (join [String c dir; ".momo.jsonc"])
      end
  | _ => JObject []
  end.
End Host.

(** The field of a source that is not [null]. *)
Definition field (source : Json) (key : string) : Value :=
  match source with
  | JObject properties => own_property key properties
  | _ => None
  end.

(** The first value that is set (neither [undefined] nor [null]), in
    the order of the list. *)
Fixpoint first_set (sources : list Value) : Value :=
  match sources with
  | [] => None
  | v :: rest => if is_nullish v then first_set rest else v
  end.

(** A field resolved from its sources: the first value that is set, and
    no value when none is. *)
Definition resolved (sources : list Value) (result : Value) : Prop :=
  match first_set sources with
  | Some v => result = Some v
  | None => is_nullish result = true
  end.

End Config.

(* ================================================================== *)
(** ** src/cli.ts: the values written by [writeMomoConfig] *)

Module Cli.

Record Options := {
  opt_baseUrl : option string;
  opt_apiKey : option string;
}.

(** The object [config] that is printed into [momo.jsonc]. *)
Record Written := {
  w_baseUrl : string;
  w_apiKey : string;
  w_containerTagUser : string;
  w_containerTagProject : string;
}.

(** [typeof existing.key === "string" ? existing.key : undefined]. *)
Definition prior (existing : Config.Json) (key : string)
    : Config.Result (option string) :=
  Config.bind (Config.get existing key) (λ v,
  Config.Ok (match v with
             | Some (Config.JString s) => Some s
             | _ => None
             end)).

(** [a ?? b] on optional strings. *)
Definition or_prior (a b : option string) : option string :=
  match a with Some _ => a | None => b end.

(** The values [writeMomoConfig] computes; [existing] is what the file
    already there parses to ([{}] when there is none, or when it cannot
    be read or parsed). *)
Definition writeMomoConfig_config (options : Options)
    (existing : Config.Json) : Config.Result Written :=
  Config.bind (prior existing "baseUrl") (λ priorBaseUrl,
  Config.bind (prior existing "apiKey") (λ priorApiKey,
  Config.bind (prior existing "containerTagUser") (λ priorContainerTagUser,
  Config.bind (prior existing "containerTagProject")
    (λ priorContainerTagProject,
  Config.Ok
    {| w_baseUrl :=
         default "http://localhost:3000"
           (or_prior (opt_baseUrl options) priorBaseUrl);
       w_apiKey := default "" (or_prior (opt_apiKey options) priorApiKey);
       w_containerTagUser := default "" priorContainerTagUser;
       w_containerTagProject := default "" priorContainerTagProject |})))).

(** What [writeMomoConfig] takes as [existing]: the file is read only
    when it is there, and a failure to read or parse it gives [{}]. *)
Definition read_existing (stripJsoncComments : string → string)
    (JSON_parse : string → option Config.Json)
    (fs : string → Config.FileState) (configPath : string) : Config.Json :=
  if Config.existsSync fs configPath then
    match Config.try_read stripJsoncComments JSON_parse fs configPath with
    | Some parsed => parsed
    | None => Config.JObject []
    end
  else Config.JObject [].

(** What the text that is written parses to: an object with the four
    values, all strings. *)
Definition as_file (written : Written) : Config.Json :=
  Config.JObject
    [("baseUrl", Config.JString (w_baseUrl written));
     ("apiKey", Config.JString (w_apiKey written));
     ("containerTagUser", Config.JString (w_containerTagUser written));
     ("containerTagProject",
      Config.JString (w_containerTagProject written))].

End Cli.

(* ================================================================== *)
(** ** src/services/context.ts *)

Module Context.

Record MemoryItem := {
  content : option string;
  memoryType : option string;
  id : option string;
  createdAt : option string;
}.

Record ProfileData := {
  summary : option string;
  traits : option (list string);
}.

Definition nl : string := String (ascii_of_nat 10) "".

(** [parts.join(sep)]. *)
Fixpoint join (sep : string) (parts : list string) : string :=
  match parts with
  | [] => ""
  | [p] => p
  | p :: rest => p +:+ sep +:+ join sep rest
  end.

(** [`${v}`] for an optional string: [undefined] prints as such. *)
Definition interpolate (v : option string) : string :=
  match v with Some s => s | None => "undefined" end.

Definition memory_line (m : MemoryItem) : string :=
  let typeLabel :=
    if truthy (memoryType m)
    then " [" +:+ interpolate (memoryType m) +:+ "]" else "" in
  "- " +:+ interpolate (content m) +:+ typeLabel.

Definition BEGIN_MARKER : string :=
  "[MOMO MEMORY - Context from previous sessions]".
Definition END_MARKER : string := "[END MOMO MEMORY]".

(** [profile] is [None] for [null] and [undefined]. *)
Definition formatContextForPrompt (profile : option ProfileData)
    (userMemories projectMemories : list MemoryItem) : string :=
  let sections : list string := [] in
  let sections :=
    if truthy (profile ≫= summary)
    then sections ++ ["## User Profile" +:+ nl +:+
                        interpolate (profile ≫= summary)]
    else sections in
  let sections :=
    match profile ≫= traits with
    | Some ts =>
        if (0 <? length ts)%nat
        then sections ++ ["## Known Preferences" +:+ nl +:+
                            join nl (map (λ t, "- " +:+ t) ts)]
        else sections
    | None => sections
    end in
  let sections :=
    if (0 <? length userMemories)%nat
    then sections ++ ["## Recent User Context" +:+ nl +:+
                        join nl (map memory_line userMemories)]
    else sections in
  let sections :=
    if (0 <? length projectMemories)%nat
    then sections ++ ["## Project Knowledge" +:+ nl +:+
                        join nl (map memory_line projectMemories)]
    else sections in
  if (length sections =? 0)%nat then ""
  else BEGIN_MARKER +:+ nl +:+ nl +:+ join (nl +:+ nl) sections
       +:+ nl +:+ nl +:+ END_MARKER.

(** *** Vocabulary for the properties of the formatter *)

(** The four sections in their fixed order, each [None] when it has
    no content. *)
Definition profile_section (profile : option ProfileData)
    : option string :=
  match profile ≫= summary with
  | Some (String c s) => Some ("## User Profile" +:+ nl +:+ String c s)
  | _ => None
  end.

Definition preferences_section (profile : option ProfileData)
    : option string :=
  match profile ≫= traits with
  | Some (t :: ts) =>
      Some ("## Known Preferences" +:+ nl +:+
              join nl (map (λ t, "- " +:+ t) (t :: ts)))
  | _ => None
  end.

Definition memory_section (heading : string) (memories : list MemoryItem)
    : option string :=
  match memories with
  | [] => None
  | _ => Some (heading +:+ nl +:+ join nl (map memory_line memories))
  end.

Fixpoint present (candidates : list (option string)) : list string :=
  match candidates with
  | [] => []
  | Some section :: rest => section :: present rest
  | None :: rest => present rest
  end.

Definition sections_in_order (profile : option ProfileData)
    (userMemories projectMemories : list MemoryItem) : list string :=
  present [profile_section profile;
           preferences_section profile;
           memory_section "## Recent User Context" userMemories;
           memory_section "## Project Knowledge" projectMemories].

(** No section has content. *)
Definition no_content (profile : option ProfileData)
    (userMemories projectMemories : list MemoryItem) : Prop :=
  truthy (profile ≫= summary) = false
  ∧ (profile ≫= traits = None ∨ profile ≫= traits = Some [])
  ∧ userMemories = [] ∧ projectMemories = [].

End Context.

(* ================================================================== *)
(** ** src/index.ts: the chat.message hook *)

Module Injection.

(** What a backend call settles to. *)
Inductive Settled (A : Type) :=
| Rejected
| Resolved (value : A).
Arguments Rejected {A}.
Arguments Resolved {A} value.

Record ProfileResponse := {
  narrative : option string;
  staticFacts : list string;
}.

(** [results] of a search response, each result by its [content]. *)
Record SearchResponse := {
  results : option (list (option string));
}.

(** The outcome of the three calls of one hook invocation. *)
Record Backend := {
  profile_compute : Settled ProfileResponse;
  search_user : Settled SearchResponse;
  search_project : Settled SearchResponse;
}.

Record Part := {
  part_id : string;
  part_sessionID : string;
  part_messageID : string;
  part_type : string;
  part_text : string;
  part_synthetic : bool;
  part_source : string;
}.

Record HookInput := {
  sessionID : string;
  messageID : option string;
}.

Definition memory_of (c : option string) : Context.MemoryItem :=
  {| Context.content := c; Context.memoryType := None;
     Context.id := None; Context.createdAt := None |}.

(** [search(...).then((r) => r.results ?? []).catch(() => [])]. *)
Definition search_results (p : Settled SearchResponse)
    : list (option string) :=
  match p with
  | Resolved r => default [] (results r)
  | Rejected => []
  end.

(** [chatMessageHook]: [configured] tells whether [momo] is defined;
    the result is the set of injected sessions and [output.parts]
    after the call. *)
Definition chatMessageHook (configured : bool) (backend : Backend)
    (injectedSessions : gset string) (input : HookInput)
    (parts : list Part) : gset string * list Part :=
  if bool_decide (sessionID input ∈ injectedSessions)
  then (injectedSessions, parts)
  else if negb configured then (injectedSessions, parts)
  else
    let injectedSessions := injectedSessions ∪ {[sessionID input]} in
    let profile :=
      match profile_compute backend with
      | Resolved p => Some p
      | Rejected => None
      end in
    let userMemories := search_results (search_user backend) in
    let projectMemories := search_results (search_project backend) in
    let contextText :=
      Context.formatContextForPrompt
        ((λ p, {| Context.summary := narrative p;
                  Context.traits := Some (staticFacts p) |}) <$> profile)
        (map memory_of userMemories)
        (map memory_of projectMemories) in
    if negb (truthy (Some contextText)) then (injectedSessions, parts)
    else
      let syntheticPart :=
        {| part_id := "momo-context-" +:+ sessionID input;
           part_sessionID := sessionID input;
           part_messageID := default "" (messageID input);
           part_type := "text";
           part_text := contextText;
           part_synthetic := true;
           part_source := "momo-memory" |} in
      (injectedSessions, syntheticPart :: parts).

(** [eventHook]: the compaction handler runs when [momo] is defined and
    is given the project tag. *)
Definition eventHook (configured : bool) (tags : Tags.TagPair)
    (event : Compaction.Event) (now : Z)
    (sessionStates : gmap string Compaction.CompactionSessionState)
    : gmap string Compaction.CompactionSessionState
      * list Compaction.IngestRequest :=
  if negb configured then (sessionStates, [])
  else Compaction.handleCompactionEvent event now (Tags.project tags)
         sessionStates.

(** One invocation of the hook as the host makes it. *)
Record Call := {
  call_configured : bool;
  call_backend : Backend;
  call_input : HookInput;
  call_parts : list Part;
}.

(** Invocations one after the other; the result lists, per call, the
    session id and how many parts the call put in front of the list
    it was given. *)
Fixpoint invoke_all (calls : list Call) (injectedSessions : gset string)
    : gset string * list (string * nat) :=
  match calls with
  | [] => (injectedSessions, [])
  | c :: rest =>
      let '(injected, parts') :=
        chatMessageHook (call_configured c) (call_backend c)
          injectedSessions (call_input c) (call_parts c) in
      let '(final, log) := invoke_all rest injected in
      (final,
       (sessionID (call_input c),
        (length parts' - length (call_parts c))%nat) :: log)
  end.

(** Parts added in total by the calls for [sid]. *)
Fixpoint added_for (sid : string) (log : list (string * nat)) : nat :=
  match log with
  | [] => 0%nat
  | (s, n) :: rest =>
      ((if String.eqb s sid then n else 0) + added_for sid rest)%nat
  end.

End Injection.

(* ================================================================== *)
(** ** src/index.ts: waitForIngestion *)

Module Poller.

(** What [waitForIngestion] returns; the backend's reply has the same
    fields. *)
Record IngestionStatus := {
  status : string;
  title : option string;
  documentId : option string;
}.

(** How [client.documents.getIngestionStatus] settles. *)
Inductive Reply :=
| Throws
| Reports (s : IngestionStatus).

(** One turn of the loop as the world answers it: the reading of
    [Date.now()] in the loop test and, if the request is made, how it
    settles and what the clock shows when it does.  The function takes
    no reading of the clock when a reply comes in. *)
Record Turn := {
  now : Z;
  reply : Reply;
  replied_at : Z;
}.

(** What the function does to the world, in order. *)
Inductive Action :=
| Query (ingestionId : string) (requestTimeoutMs : Z)
| Delay (ms : Z).

Inductive Outcome :=
| Returned (result : IngestionStatus)
| Raised.

Definition is_terminal (s : string) : bool :=
  String.eqb s "completed" || String.eqb s "failed".

Definition processing : IngestionStatus :=
  {| status := "processing"; title := None; documentId := None |}.

(** The [while] loop, one [Turn] per test of its condition.  The
    outcome is [None] when the turns end while the loop is still
    running. *)
Fixpoint poll (ingestionId : string) (start timeoutMs pollIntervalMs : Z)
    (turns : list Turn) : option Outcome * list Action :=
  match turns with
  | [] => (None, [])
  | turn :: rest =>
      if now turn - start <? timeoutMs then
        match reply turn with
        | Throws => (Some Raised, [Query ingestionId timeoutMs])
        | Reports s =>
            if is_terminal (status s) then
              (Some (Returned {| status := status s;
                                 title := title s;
                                 documentId := documentId s |}),
               [Query ingestionId timeoutMs])
            else
              let '(outcome, log) :=
                poll ingestionId start timeoutMs pollIntervalMs rest in
              (outcome,
               Query ingestionId timeoutMs :: Delay pollIntervalMs :: log)
        end
      else (Some (Returned processing), [])
  end.

(** [waitForIngestion]: [start] is the first reading of [Date.now()]. *)
Definition waitForIngestion (ingestionId : string)
    (timeoutMs pollIntervalMs : Z) (start : Z) (turns : list Turn)
    : option Outcome * list Action :=
  poll ingestionId start timeoutMs pollIntervalMs turns.

(** *** Vocabulary for the properties of the poller *)

(** The backend answered, with a status that is not terminal. *)
Definition still_pending (turn : Turn) : Prop :=
  ∃ s, reply turn = Reports s ∧ is_terminal (status s) = false.

(** [n] rounds of polling: a request for the job, then one wait of
    [interval] milliseconds. *)
Fixpoint rounds (ingestionId : string) (requestTimeoutMs interval : Z)
    (n : nat) : list Action :=
  match n with
  | O => []
  | S k =>
      Query ingestionId requestTimeoutMs :: Delay interval
      :: rounds ingestionId requestTimeoutMs interval k
  end.

(** The backend reported the status [wanted] within the time budget:
    some reply with that status came in less than [timeoutMs] after
    [start]. *)
Definition reported_within_budget (start timeoutMs : Z) (turns : list Turn)
    (wanted : string) : Prop :=
  ∃ (turn : Turn) (s : IngestionStatus),
    turn ∈ turns ∧ reply turn = Reports s ∧ status s = wanted
    ∧ replied_at turn - start < timeoutMs.

(** Requests for one job, each but the last followed by one wait of
    [interval] milliseconds. *)
Fixpoint fixed_interval (ingestionId : string) (requestTimeoutMs : Z)
    (interval : Z) (log : list Action) : Prop :=
  match log with
  | [] => True
  | [Query i t] => i = ingestionId ∧ t = requestTimeoutMs
  | Query i t :: Delay d :: rest =>
      i = ingestionId ∧ t = requestTimeoutMs ∧ d = interval
      ∧ fixed_interval ingestionId requestTimeoutMs interval rest
  | _ => False
  end.

End Poller.

(* ================================================================== *)
(** ** A sample host, for running the definitions *)

Module Sample.

Definition join (parts : list string) : string := Context.join "/" parts.

Definition homedir : string := "/home/alice".

(** Three texts stand for files that parse: two objects and the value
    [null]; nothing else parses. *)
Definition JSON_parse (text : string) : option Config.Json :=
  if String.eqb text "project file" then
    Some (Config.JObject
            [("apiKey", Config.JString "project-key");
             ("containerTagProject", Config.JString "project-tag")])
  else if String.eqb text "global file" then
    Some (Config.JObject
            [("apiKey", Config.JString "global-key");
             ("baseUrl", Config.JString "http://global:3000");
             ("containerTagUser", Config.JString "");
             ("containerTagProject", Config.JString "global-project")])
  else if String.eqb text "null" then Some Config.JNull
  else None.

Definition stripJsoncComments (raw : string) : string := raw.

Definition env : Config.Env :=
  {| Config.MOMO_API_KEY := None;
     Config.MOMO_BASE_URL := None;
     Config.MOMO_CONTAINER_TAG_USER := Some "env-user";
     Config.MOMO_CONTAINER_TAG_PROJECT := None;
     Config.XDG_CONFIG_HOME := None |}.

(** A project with a good dotted file and a global file. *)
Definition fs (path : string) : Config.FileState :=
  if String.eqb path "/work/app/.momo.jsonc" then
    Config.Content "project file"
  else if String.eqb path "/home/alice/.config/opencode/momo.jsonc" then
    Config.Content "global file"
  else Config.Absent.




(** No variable set. *)
Definition env_empty : Config.Env :=
  {| Config.MOMO_API_KEY := None;
     Config.MOMO_BASE_URL := None;
     Config.MOMO_CONTAINER_TAG_USER := None;
     Config.MOMO_CONTAINER_TAG_PROJECT := None;
     Config.XDG_CONFIG_HOME := None |}.

Definition pending : Poller.Turn :=
  {| Poller.now := 1700000000500;
     Poller.reply :=
       Poller.Reports {| Poller.status := "processing";
                         Poller.title := None;
                         Poller.documentId := Some "doc-1" |};
     Poller.replied_at := 1700000000600 |}.

Definition late (reading : Z) : Poller.Turn :=
  {| Poller.now := reading;
     Poller.reply :=
       Poller.Reports {| Poller.status := "completed";
                         Poller.title := Some "t";
                         Poller.documentId := Some "doc-1" |};
     Poller.replied_at := reading + 100 |}.

(** A request made one millisecond before a budget of 120000 ms runs
    out, answered five seconds later. *)
Definition slow_reply : Poller.Turn :=
  {| Poller.now := 1700000119999;
     Poller.reply :=
       Poller.Reports {| Poller.status := "completed";
                         Poller.title := Some "t";
                         Poller.documentId := Some "doc-1" |};
     Poller.replied_at := 1700000124999 |}.

End Sample.

(* ================================================================== *)
(** ** src/index.ts: helpers and the [add] mode of the momo tool *)

Module Plugin.

(** [truncate(value, max)]. *)
Definition truncate (value : string) (max : nat) : string :=
  if (String.length value <=? max)%nat then value
  else Tags.take max value +:+ "...".

(** [resolveContainerTag(scope)]. *)
Definition resolveContainerTag (tags : Tags.TagPair) (scope : option string)
    : string :=
  match scope with
  | Some s => if String.eqb s "user" then Tags.user tags
              else Tags.project tags
  | None => Tags.project tags
  end.

(** The arguments that the [add] mode reads. *)
Record AddArgs := {
  content : option string;
  scope : option string;
  memoryType : option string;
}.

(** Calls made to [client.memories]. *)
Inductive BackendCall :=
| MemoriesCreate (content containerTag : string) (memoryType : option string).

(** How [execute] ends: the error of [requireMomo], the rejection of a
    backend call passed on to the caller, or a text. *)
Inductive ToolOutcome :=
| NotConfigured
| BackendError
| Text (text : string).

(** [case "add"] of [execute]: [configured] tells whether [momo] is
    defined and [created] is how [client.memories.create] settles, with
    the [memoryId] of its result. *)
Definition execute_add (configured : bool) (tags : Tags.TagPair)
    (args : AddArgs) (created : Injection.Settled string)
    : ToolOutcome * list BackendCall :=
  if negb configured then (NotConfigured, [])
  else if negb (truthy (content args)) then
    (Text "Error: 'content' is required for add mode.", [])
  else
    let cleaned := Privacy.stripPrivateContent (content args) in
    if Privacy.isFullyPrivate (content args) then
      (Text ("Error: Content is entirely private (wrapped in <private> tags)."
             +:+ " Nothing to store."), [])
    else
      let containerTag :=
        resolveContainerTag tags (Some (default "project" (scope args))) in
      let call := MemoriesCreate cleaned containerTag (memoryType args) in
      match created with
      | Injection.Rejected => (BackendError, [call])
      | Injection.Resolved memoryId =>
          (Text ("Memory stored successfully (ID: " +:+ memoryId
                 +:+ ", scope: " +:+ default "project" (scope args) +:+ ")."),
           [call])
      end.

End Plugin.

(* ================================================================== *)
(** ** src/cli.ts: the command line *)

Module CliArgs.

Record Flags := {
  help : bool;
  yes : bool;
  no_prompt : bool;
  base_url : option string;
  api_key : option string;
}.

Definition no_flags : Flags :=
  {| help := false; yes := false; no_prompt := false;
     base_url := None; api_key := None |}.

(** The loop of [parseArgs] from the argument at index [i] on; [argv] is
    what is left from that index.  An option that takes a value skips
    the value ([i++]). *)
Fixpoint parse_from (argv : list string) (command : option string)
    (flags : Flags) : option string * Flags :=
  match argv with
  | [] => (command, flags)
  | arg :: rest =>
      if String.eqb arg "--help" || String.eqb arg "-h" then
        parse_from rest command
          {| help := true; yes := yes flags; no_prompt := no_prompt flags;
             base_url := base_url flags; api_key := api_key flags |}
      else if String.eqb arg "--yes" || String.eqb arg "-y" then
        parse_from rest command
          {| help := help flags; yes := true; no_prompt := no_prompt flags;
             base_url := base_url flags; api_key := api_key flags |}
      else if String.eqb arg "--no-prompt" then
        parse_from rest command
          {| help := help flags; yes := yes flags; no_prompt := true;
             base_url := base_url flags; api_key := api_key flags |}
      else
        match rest with
        | value :: rest' =>
            if String.eqb arg "--base-url" then
              parse_from rest' command
                {| help := help flags; yes := yes flags;
                   no_prompt := no_prompt flags;
                   base_url := Some value; api_key := api_key flags |}
            else if String.eqb arg "--api-key" then
              parse_from rest' command
                {| help := help flags; yes := yes flags;
                   no_prompt := no_prompt flags;
                   base_url := base_url flags; api_key := Some value |}
            else if negb (Privacy.starts_with "-" arg)
                    && negb (truthy command) then
              parse_from rest (Some arg) flags
            else parse_from rest command flags
        | [] =>
            if negb (Privacy.starts_with "-" arg)
               && negb (truthy command) then
              parse_from rest (Some arg) flags
            else parse_from rest command flags
        end
  end.

Definition parseArgs (argv : list string) : option string * Flags :=
  parse_from argv None no_flags.

End CliArgs.

(* ================================================================== *)
(** ** Vocabulary for further properties *)

Module Vocabulary.

(** The session an event is about, for the events that are handled. *)
Definition event_session (event : Compaction.Event) : option string :=
  match event with
  | Compaction.SessionCompacted sessionID => Some sessionID
  | Compaction.MessageUpdated info => Some (Compaction.sessionID info)
  | Compaction.SessionDeleted id => Some id
  | Compaction.OtherEvent _ => None
  end.

(** How many [session.compacted] events of a session a trace holds. *)
Fixpoint compactions_of (sid : string)
    (events : list (Compaction.Event * Z)) : nat :=
  match events with
  | [] => 0
  | (Compaction.SessionCompacted s, _) :: rest =>
      ((if String.eqb s sid then 1 else 0) + compactions_of sid rest)%nat
  | _ :: rest => compactions_of sid rest
  end.

(** How many of the requests are for a session. *)
Fixpoint requests_for (sid : string) (out : list Compaction.IngestRequest)
    : nat :=
  match out with
  | [] => 0
  | r :: rest =>
      ((if String.eqb (Compaction.sessionId r) sid then 1 else 0)
       + requests_for sid rest)%nat
  end.

(** Whether the summary of a compaction of the session is awaited. *)
Definition in_progress
    (m : gmap string Compaction.CompactionSessionState) (sid : string)
    : nat :=
  match m !! sid with
  | Some st => if Compaction.inProgress st then 1 else 0
  | None => 0
  end.

(** The value of a hexadecimal digit, and of a string of them. *)
Definition digit_value (c : ascii) : Z :=
  let n := Z.of_nat (nat_of_ascii c) in
  if (48 <=? n) && (n <=? 57) then n - 48
  else if (97 <=? n) && (n <=? 102) then n - 87
  else 0.

Fixpoint hex_value (s : string) : Z :=
  match s with
  | "" => 0
  | String c rest =>
      digit_value c * 16 ^ Z.of_nat (String.length rest) + hex_value rest
  end.

Fixpoint all_chars (p : ascii → bool) (s : string) : bool :=
  match s with
  | "" => true
  | String c rest => p c && all_chars p rest
  end.

(** The sixteen hexadecimal digits in lower case. *)
Definition is_hex_digit (c : ascii) : bool :=
  let n := nat_of_ascii c in
  (Nat.leb 48 n && Nat.leb n 57) || (Nat.leb 97 n && Nat.leb n 102).

(** Lower-case letters, digits and the dash. *)
Definition is_tag_char (c : ascii) : bool :=
  Tags.is_slug_char c || Tags.is_dash c.

(** How many requests a log of actions holds. *)
Fixpoint queries (log : list Poller.Action) : nat :=
  match log with
  | [] => 0
  | Poller.Query _ _ :: rest => S (queries rest)
  | Poller.Delay _ :: rest => queries rest
  end.

(** The turns that keep the loop going: inside the budget, with a status
    that is not terminal. *)
Definition keeps_polling (start timeoutMs : Z) (turn : Poller.Turn) : Prop :=
  Poller.now turn - start < timeoutMs ∧ Poller.still_pending turn.

(** A call of the hook by a configured plugin for a given session. *)
Definition call_for (sid : string) (backend : Injection.Backend)
    (messageID : option string) (parts : list Injection.Part)
    : Injection.Call :=
  {| Injection.call_configured := true;
     Injection.call_backend := backend;
     Injection.call_input :=
       {| Injection.sessionID := sid; Injection.messageID := messageID |};
     Injection.call_parts := parts |}.

End Vocabulary.

(* ================================================================== *)
(** * Properties *)

(** ** Compaction tracker *)

Section CompactionFacts.
Import Compaction.

Implicit Types (m : gmap string CompactionSessionState) (sid tag : string).

Lemma started_store m sid now tag :
  handleCompactionEvent (CompactionStarted sid) now tag m
  = (<[sid := {| lastCompaction := last_of m sid; inProgress := true |}]> m,
     []).
Proof.
  unfold last_of, CompactionStarted, handleCompactionEvent, getState.
  destruct (m !! sid) as [st|] eqn:E; simpl; [done|].
  by rewrite insert_insert_eq.
Qed.

Lemma summary_fires m sid now tag st :
  m !! sid = Some st → inProgress st = true →
  COMPACTION_COOLDOWN_MS ≤ now - lastCompaction st →
  handleCompactionEvent (SummaryReady sid) now tag m
  = (<[sid := {| lastCompaction := now; inProgress := false |}]> m,
     [marker sid tag]).
Proof.
  intros E P C.
  unfold SummaryReady, handleCompactionEvent, getState; simpl.
  rewrite E, P; simpl.
  destruct (Z.ltb_spec (now - lastCompaction st) COMPACTION_COOLDOWN_MS);
    [lia | done].
Qed.

Lemma summary_suppressed m sid now tag st :
  m !! sid = Some st → inProgress st = true →
  now - lastCompaction st < COMPACTION_COOLDOWN_MS →
  handleCompactionEvent (SummaryReady sid) now tag m
  = (<[sid := {| lastCompaction := lastCompaction st;
                 inProgress := false |}]> m, []).
Proof.
  intros E P C.
  unfold SummaryReady, handleCompactionEvent, getState; simpl.
  rewrite E, P; simpl.
  destruct (Z.ltb_spec (now - lastCompaction st) COMPACTION_COOLDOWN_MS);
    [done | lia].
Qed.

(** One compaction outside the cooldown: one request, clock recorded. *)
Lemma compaction_fires m sid now tag :
  COMPACTION_COOLDOWN_MS ≤ now - last_of m sid →
  run tag (compaction_at sid now) m
  = (<[sid := {| lastCompaction := now; inProgress := false |}]> m,
     [marker sid tag]).
Proof.
  intros C. unfold compaction_at, run.
  rewrite started_store.
  erewrite summary_fires; [| apply lookup_insert_eq | done | done].
  by rewrite insert_insert_eq.
Qed.

(** One compaction inside the cooldown: no request, clock kept. *)
Lemma compaction_suppressed m sid now tag :
  now - last_of m sid < COMPACTION_COOLDOWN_MS →
  run tag (compaction_at sid now) m
  = (<[sid := {| lastCompaction := last_of m sid;
                 inProgress := false |}]> m, []).
Proof.
  intros C. unfold compaction_at, run.
  rewrite started_store.
  erewrite summary_suppressed; [| apply lookup_insert_eq | done | done].
  by rewrite insert_insert_eq.
Qed.

Lemma last_of_insert m sid st :
  last_of (<[sid := st]> m) sid = lastCompaction st.
Proof. unfold last_of. by rewrite lookup_insert_eq. Qed.

Lemma last_of_delete m sid : last_of (delete sid m) sid = 0.
Proof. unfold last_of. by rewrite lookup_delete_eq. Qed.

(** The event hook of a configured plugin hands the handler the project
    tag. *)
Lemma eventHook_project_tag (tags : Tags.TagPair) event now m :
  Injection.eventHook true tags event now m
  = handleCompactionEvent event now (Tags.project tags) m.
Proof. reflexivity. Qed.

End CompactionFacts.

(** C1, as stated, fails at the reading 0: a fresh entry starts with
    [lastCompaction = 0], so at [now = 0] the test [now - lastCompaction
    < 30000] holds and the first summary of session s1 is dropped. *)
Lemma C1_first_summary_at_zero_is_suppressed :
  (Compaction.run "ocp-project-0002b58b"
     (Compaction.compaction_at "s1" 0) ∅).2 = [].
Proof. vm_compute. reflexivity. Qed.

(** C1 (amended): with wall-clock readings at least one cooldown past
    the epoch, [T >= 30000]: starting from no tracked state,
    CompactionStarted(s1), SummaryReady(s1) at [T] emits exactly one
    ingestion request, carrying the project container tag it was given
    and the type "episode"; the same pair at [T + 10000] emits none; the
    pair at [T + 31000] emits exactly one more; and after
    SessionEnded(s1) a fresh pair at once, at a reading [T'] no earlier
    than the cooldown, emits a request again, also when [T'] is inside
    the cooldown of the request before the deletion. *)
Theorem C1_cooldown_scenario (T T' : Z) (projectTag : string) :
  30000 ≤ T → 30000 ≤ T' →
  let '(m1, out1) :=
    Compaction.run projectTag (Compaction.compaction_at "s1" T) ∅ in
  let '(m2, out2) :=
    Compaction.run projectTag (Compaction.compaction_at "s1" (T + 10000)) m1 in
  let '(m3, out3) :=
    Compaction.run projectTag (Compaction.compaction_at "s1" (T + 31000)) m2 in
  let '(m4, out4) :=
    Compaction.run projectTag
      ((Compaction.SessionEnded "s1", T') :: Compaction.compaction_at "s1" T')
      m3 in
  out1 = [Compaction.marker "s1" projectTag]
  ∧ Compaction.containerTag (Compaction.marker "s1" projectTag) = projectTag
  ∧ Compaction.memoryType (Compaction.marker "s1" projectTag) = "episode"
  ∧ out2 = []
  ∧ out3 = [Compaction.marker "s1" projectTag]
  ∧ m3 !! "s1" = Some {| Compaction.lastCompaction := T + 31000;
                         Compaction.inProgress := false |}
  ∧ out4 = [Compaction.marker "s1" projectTag].
Proof.
  intros HT HT'.
  rewrite compaction_fires
    by (unfold Compaction.last_of; rewrite lookup_empty; simpl;
        unfold Compaction.COMPACTION_COOLDOWN_MS; lia).
  cbv beta iota.
  rewrite compaction_suppressed
    by (rewrite last_of_insert; simpl;
        unfold Compaction.COMPACTION_COOLDOWN_MS; lia).
  cbv beta iota. rewrite last_of_insert; simpl Compaction.lastCompaction.
  rewrite compaction_fires
    by (rewrite last_of_insert; simpl;
        unfold Compaction.COMPACTION_COOLDOWN_MS; lia).
  cbv beta iota.
  match goal with
  | |- context [Compaction.run ?t ((Compaction.SessionEnded ?s, ?n) :: ?l) ?m] =>
      change (Compaction.run t ((Compaction.SessionEnded s, n) :: l) m)
        with (let '(final, out') := Compaction.run t l (delete s m) in
              (final, [] ++ out'))
  end.
  rewrite compaction_fires
    by (rewrite last_of_delete; unfold Compaction.COMPACTION_COOLDOWN_MS; lia).
  cbv beta iota. rewrite lookup_insert_eq. repeat split; reflexivity.
Qed.

Lemma C1_cooldown_scenario_witness :
  30000 ≤ 1700000000000 ∧ 30000 ≤ 1700000031000 ∧
  let '(m1, out1) :=
    Compaction.run "ocp-project-0002b58b"
      (Compaction.compaction_at "s1" 1700000000000) ∅ in
  let '(m2, out2) :=
    Compaction.run "ocp-project-0002b58b"
      (Compaction.compaction_at "s1" (1700000000000 + 10000)) m1 in
  let '(m3, out3) :=
    Compaction.run "ocp-project-0002b58b"
      (Compaction.compaction_at "s1" (1700000000000 + 31000)) m2 in
  let '(m4, out4) :=
    Compaction.run "ocp-project-0002b58b"
      ((Compaction.SessionEnded "s1", 1700000031000)
         :: Compaction.compaction_at "s1" 1700000031000)
      m3 in
  out1 = [Compaction.marker "s1" "ocp-project-0002b58b"]
  ∧ Compaction.containerTag (Compaction.marker "s1" "ocp-project-0002b58b")
    = "ocp-project-0002b58b"
  ∧ Compaction.memoryType (Compaction.marker "s1" "ocp-project-0002b58b")
    = "episode"
  ∧ out2 = []
  ∧ out3 = [Compaction.marker "s1" "ocp-project-0002b58b"]
  ∧ m3 !! "s1" = Some {| Compaction.lastCompaction := 1700000000000 + 31000;
                         Compaction.inProgress := false |}
  ∧ out4 = [Compaction.marker "s1" "ocp-project-0002b58b"].
Proof.
  split; [lia|]. split; [lia|].
  apply (C1_cooldown_scenario 1700000000000 1700000031000
           "ocp-project-0002b58b"); lia.
Defined.

Section CompactionMonotone.
Import Compaction.

Implicit Types (m : gmap string CompactionSessionState) (sid tag : string).

Lemma getState_lookup m sid s st :
  m !! sid = Some st → (getState s m).2 !! sid = Some st.
Proof.
  intros E. unfold getState.
  destruct (m !! s) as [x|] eqn:Es; simpl; [done|].
  rewrite lookup_insert_ne; [done | congruence].
Qed.

Lemma getState_read m sid st : m !! sid = Some st → (getState sid m).1 = st.
Proof. intros E. unfold getState. by rewrite E. Qed.

(** No transition lowers [lastCompaction] of an entry that is there
    before and after it. *)
Lemma step_monotone event now tag m sid st st' :
  m !! sid = Some st →
  (handleCompactionEvent event now tag m).1 !! sid = Some st' →
  lastCompaction st ≤ lastCompaction st'.
Proof.
  intros E.
  destruct event as [s | info | s | ty]; simpl.
  - pose proof (getState_lookup m sid s st E) as L.
    pose proof (getState_read m sid st E) as R.
    destruct (getState s m) as [state states] eqn:G; simpl in *.
    destruct (decide (s = sid)) as [->|N].
    + rewrite lookup_insert_eq. rewrite G in R; simpl in R.
      intros [= <-]; simpl. subst. lia.
    + rewrite lookup_insert_ne by done. rewrite L. intros [= <-]. lia.
  - destruct (negb (String.eqb (role info) "assistant")); simpl;
      [rewrite E; intros [= <-]; lia |].
    destruct (negb (is_true (summary info)) || negb (truthy (finish info)));
      simpl; [rewrite E; intros [= <-]; lia |].
    pose proof (getState_lookup m sid (sessionID info) st E) as L.
    pose proof (getState_read m sid st E) as R.
    destruct (getState (sessionID info) m) as [state states] eqn:G;
      simpl in *.
    destruct (negb (inProgress state)); simpl;
      [rewrite L; intros [= <-]; lia |].
    destruct (Z.ltb_spec (now - lastCompaction state) COMPACTION_COOLDOWN_MS)
      as [C|C]; simpl;
      (destruct (decide (sessionID info = sid)) as [Q|N];
       [ rewrite Q in *; rewrite lookup_insert_eq; rewrite G in R;
         simpl in R; subst state; intros [= <-]; simpl;
         unfold COMPACTION_COOLDOWN_MS in *; lia
       | rewrite lookup_insert_ne by done; rewrite L; intros [= <-]; lia ]).
  - destruct (decide (s = sid)) as [->|N].
    + by rewrite lookup_delete_eq.
    + rewrite lookup_delete_ne by done. rewrite E. intros [= <-]. lia.
  - rewrite E. intros [= <-]. lia.
Qed.

Lemma run_cons_store tag event now rest m :
  (run tag ((event, now) :: rest) m).1
  = (run tag rest (handleCompactionEvent event now tag m).1).1.
Proof.
  simpl. destruct (handleCompactionEvent event now tag m) as [m1 o1]; simpl.
  by destruct (run tag rest m1).
Qed.

End CompactionMonotone.

(** C5: along every sequence of events, whatever the clock readings (so
    in particular for non-decreasing ones), the [lastCompaction] field of
    a session's entry never goes down for as long as the entry exists: if
    the entry is there at the start and after every prefix of the
    sequence, its final [lastCompaction] is at least the initial one. *)
Theorem C5_lastCompaction_never_decreases
    (tag : string) (events : list (Compaction.Event * Z))
    (m : gmap string Compaction.CompactionSessionState)
    (sid : string) (st : Compaction.CompactionSessionState) :
  m !! sid = Some st →
  (∀ k, is_Some ((Compaction.run tag (take k events) m).1 !! sid)) →
  ∃ st', (Compaction.run tag events m).1 !! sid = Some st'
         ∧ Compaction.lastCompaction st ≤ Compaction.lastCompaction st'.
Proof.
  revert m st. induction events as [|[event now] rest IH]; intros m st E K.
  - exists st. simpl. split; [done | lia].
  - destruct (K 1%nat) as [st1 E1].
    change (take 1 ((event, now) :: rest)) with [(event, now)] in E1.
    rewrite run_cons_store in E1. simpl in E1.
    pose proof (step_monotone event now tag m sid st st1 E E1) as M1.
    destruct (IH _ st1 E1) as [st' [E' M']].
    + intros k. specialize (K (S k)).
      change (take (S k) ((event, now) :: rest))
        with ((event, now) :: take k rest) in K.
      by rewrite run_cons_store in K.
    + exists st'. rewrite run_cons_store. split; [done | lia].
Qed.

Lemma C5_lastCompaction_never_decreases_witness :
  ∃ st', (Compaction.run "tag"
            (Compaction.compaction_at "s1" 40000
               ++ Compaction.compaction_at "s1" 50000)
            {[ "s1" := {| Compaction.lastCompaction := 5;
                          Compaction.inProgress := false |} ]}).1
         !! "s1" = Some st'
         ∧ 5 ≤ Compaction.lastCompaction st'.
Proof.
  apply (C5_lastCompaction_never_decreases "tag"
           (Compaction.compaction_at "s1" 40000
              ++ Compaction.compaction_at "s1" 50000)
           {[ "s1" := {| Compaction.lastCompaction := 5;
                         Compaction.inProgress := false |} ]}
           "s1"
           {| Compaction.lastCompaction := 5;
              Compaction.inProgress := false |}).
  - reflexivity.
  - intros k.
    do 5 (destruct k as [|k]; [vm_compute; eauto |]).
    vm_compute; eauto.
Defined.

(** ** Privacy filter *)

Section StringFacts.

Lemma sapp_nil_l (b : string) : "" +:+ b = b.
Proof. reflexivity. Qed.

Lemma sapp_cons (x : ascii) (a b : string) :
  String x a +:+ b = String x (a +:+ b).
Proof. reflexivity. Qed.

Lemma sapp_assoc (a b c : string) : (a +:+ b) +:+ c = a +:+ (b +:+ c).
Proof.
  induction a as [|x a IH]; [done|]. rewrite !sapp_cons. by rewrite IH.
Qed.

Lemma sapp_nil_r (a : string) : a +:+ "" = a.
Proof.
  induction a as [|x a IH]; [done|]. rewrite sapp_cons. by rewrite IH.
Qed.

Lemma slength_app (a b : string) :
  String.length (a +:+ b) = (String.length a + String.length b)%nat.
Proof.
  induction a as [|x a IH]; [done|]. rewrite sapp_cons. simpl.
  by rewrite IH.
Qed.

Lemma ascii_eqb_true (a b : ascii) : Ascii.eqb a b = true → a = b.
Proof. apply Ascii.eqb_eq. Qed.

End StringFacts.

Section PrivacyFacts.
Import Privacy.

Lemma starts_with_app (p r : string) : starts_with p (p +:+ r) = true.
Proof.
  induction p as [|x p IH]; [done|]. rewrite sapp_cons. simpl.
  by rewrite Ascii.eqb_refl, IH.
Qed.

(** A literal that matches at the start of [q +:+ r] either matches
    inside [q] or runs over the end of [q] into [r]. *)
Lemma starts_with_split (p q r : string) :
  starts_with p (q +:+ r) = true →
  starts_with p q = true
  ∨ ∃ p2, p = q +:+ p2 ∧ p2 ≠ "" ∧ starts_with p2 r = true.
Proof.
  revert q. induction p as [|x p IH]; intros q H; [by left|].
  destruct q as [|y q]; [rewrite sapp_nil_l in H | rewrite sapp_cons in H];
    simpl in *.
  - right. exists (String x p). by repeat split.
  - apply andb_prop in H as [Hx Hp].
    apply ascii_eqb_true in Hx as <-.
    destruct (IH q Hp) as [L | (p2 & -> & N & S)].
    + left. by rewrite Ascii.eqb_refl, L.
    + right. exists p2. rewrite sapp_cons. by repeat split.
Qed.

Lemma has_char_app (x : ascii) (a b : string) :
  has_char x (a +:+ String x b) = true.
Proof.
  induction a as [|c a IH]; [rewrite sapp_nil_l | rewrite sapp_cons]; simpl.
  - by rewrite Ascii.eqb_refl.
  - rewrite IH. apply orb_true_r.
Qed.

Lemma occurs_head (p s : string) :
  occurs p s = false → starts_with p s = false.
Proof.
  destruct s; simpl; intros H; apply orb_false_elim in H as [H _]; done.
Qed.

Lemma occurs_tail (p : string) (c : ascii) (s : string) :
  occurs p (String c s) = false → occurs p s = false.
Proof. simpl. intros H. by apply orb_false_elim in H as [_ H]. Qed.

(** A tag whose first code unit does not come back inside it cannot
    start in a text free of the tag and end in a following text that
    begins with that code unit. *)
Lemma no_straddle (x : ascii) (t q r : string) :
  has_char x t = false →
  occurs (String x t) q = false → q ≠ "" →
  starts_with (String x t) (q +:+ String x r) = false.
Proof.
  intros Hx Ho Hq.
  destruct (starts_with (String x t) (q +:+ String x r)) eqn:E; [|done].
  apply starts_with_split in E as [L | (p2 & Ep & Np & Sp)].
  - apply occurs_head in Ho. congruence.
  - destruct p2 as [|y p2]; [done|]. simpl in Sp.
    apply andb_prop in Sp as [Sy _]. apply ascii_eqb_true in Sy as ->.
    destruct q as [|c q]; [done|]. rewrite sapp_cons in Ep.
    injection Ep as _ Et. rewrite Et, has_char_app in Hx. done.
Qed.

Lemma find_close_app (body rest : string) :
  occurs close_tag body = false →
  find_close (body +:+ close_tag +:+ rest) = Some (String.length body).
Proof.
  induction body as [|c body IH]; intros H.
  - reflexivity.
  - pose proof (no_straddle "<" "/private>" (String c body)
                  ("/private>" +:+ rest) eq_refl H) as N.
    change (find_close (String c body +:+ close_tag +:+ rest))
      with (if starts_with close_tag (String c body +:+ close_tag +:+ rest)
            then Some 0%nat
            else S <$> find_close (body +:+ close_tag +:+ rest)).
    change (close_tag +:+ rest) with (String "<" ("/private>" +:+ rest)).
    change close_tag with (String "<" "/private>") at 1.
    rewrite N by done.
    change (String "<" ("/private>" +:+ rest)) with (close_tag +:+ rest).
    rewrite IH by (by apply occurs_tail in H). done.
Qed.

Lemma find_close_occurs (s : string) (k : nat) :
  find_close s = Some k → occurs close_tag s = true.
Proof.
  revert k. induction s as [|c s IH]; intros k.
  - simpl. discriminate.
  - change (find_close (String c s))
      with (if starts_with close_tag (String c s) then Some 0%nat
            else S <$> find_close s).
    change (occurs close_tag (String c s))
      with (starts_with close_tag (String c s) || occurs close_tag s).
    destruct (starts_with close_tag (String c s)); [done|].
    destruct (find_close s) as [j|]; [|discriminate].
    intros _. rewrite (IH j eq_refl). done.
Qed.

Lemma replace_skip (a b : string) :
  replace_private (String.length a) (a +:+ b) = replace_private 0 b.
Proof.
  induction a as [|c a IH]; [done|]. rewrite sapp_cons. simpl. exact IH.
Qed.

Lemma replace_unfold (c : ascii) (s : string) :
  replace_private 0 (String c s)
  = match match_here (String c s) with
    | Some (S n) => replace_private n s
    | _ => String c (replace_private 0 s)
    end.
Proof. reflexivity. Qed.

Lemma match_here_span (body rest : string) :
  occurs close_tag body = false →
  match_here (open_tag +:+ body +:+ close_tag +:+ rest)
  = Some (S (String.length ("private>" +:+ body +:+ close_tag))).
Proof.
  intros H. unfold match_here.
  rewrite starts_with_app.
  change (drop 9 (open_tag +:+ body +:+ close_tag +:+ rest))
    with (body +:+ close_tag +:+ rest).
  rewrite find_close_app by done.
  rewrite !slength_app. simpl. reflexivity.
Qed.

(** A span at the start of the text is dropped whole. *)
Lemma replace_span (body rest : string) :
  occurs close_tag body = false →
  replace_private 0 (open_tag +:+ body +:+ close_tag +:+ rest)
  = replace_private 0 rest.
Proof.
  intros H.
  pose proof (match_here_span body rest H) as M.
  change (open_tag +:+ body +:+ close_tag +:+ rest)
    with (String "<" ("private>" +:+ body +:+ close_tag +:+ rest)) in *.
  rewrite replace_unfold, M.
  rewrite <- (replace_skip ("private>" +:+ body +:+ close_tag) rest).
  by rewrite !sapp_assoc.
Qed.

(** Text free of open tags in front of a span is kept. *)
Lemma replace_pre (pre rest : string) :
  occurs open_tag pre = false →
  replace_private 0 (pre +:+ open_tag +:+ rest)
  = pre +:+ replace_private 0 (open_tag +:+ rest).
Proof.
  induction pre as [|c pre IH]; intros H; [done|].
  pose proof (no_straddle "<" "private>" (String c pre)
                ("private>" +:+ rest) eq_refl H) as N.
  change (String c pre +:+ open_tag +:+ rest)
    with (String c (pre +:+ open_tag +:+ rest)).
  rewrite replace_unfold. unfold match_here.
  change (String c (pre +:+ open_tag +:+ rest))
    with (String c pre +:+ String "<" ("private>" +:+ rest)).
  change open_tag with (String "<" "private>") at 1.
  rewrite N by done.
  change (String "<" ("private>" +:+ rest)) with (open_tag +:+ rest).
  rewrite IH by (by apply occurs_tail in H). done.
Qed.

(** Text without a span is kept as it is. *)
Lemma replace_no_span (s : string) :
  has_span s = false → replace_private 0 s = s.
Proof.
  induction s as [|c s IH]; intros H; [done|].
  change (has_span (String c s))
    with ((starts_with open_tag (String c s)
           && occurs close_tag (drop 9 (String c s))) || has_span s) in H.
  apply orb_false_elim in H as [H1 H2].
  rewrite replace_unfold. unfold match_here.
  destruct (starts_with open_tag (String c s)) eqn:E.
  - rewrite andb_true_l in H1.
    destruct (find_close (drop 9 (String c s))) as [k|] eqn:F.
    + apply find_close_occurs in F. congruence.
    + simpl. by rewrite IH.
  - by rewrite IH.
Qed.

(** Every span of a text is removed, and nothing else. *)
Lemma replace_assemble (spans : list (string * string)) (tail : string) :
  forallb clean_span spans = true → has_span tail = false →
  replace_private 0 (assemble spans tail) = kept spans tail.
Proof.
  intros Hs Ht. induction spans as [|[pre body] spans IH]; simpl.
  - by apply replace_no_span.
  - simpl in Hs. apply andb_prop in Hs as [Hc Hs].
    unfold clean_span in Hc; simpl in Hc.
    apply andb_prop in Hc as [Ho Hb].
    apply negb_true_iff in Ho, Hb.
    rewrite replace_pre by done.
    rewrite replace_span by done.
    by rewrite IH.
Qed.

End PrivacyFacts.

Section SpanDecomposition.
Import Privacy.

Lemma starts_with_app_l (p q r : string) :
  starts_with p q = true → starts_with p (q +:+ r) = true.
Proof.
  revert q. induction p as [|x p IH]; intros q H; [done|].
  destruct q as [|y q]; [done|]. rewrite sapp_cons. simpl in *.
  apply andb_prop in H as [-> H]. by rewrite IH.
Qed.

Lemma starts_with_inv (p s : string) :
  starts_with p s = true → s = p +:+ drop (String.length p) s.
Proof.
  revert s. induction p as [|x p IH]; intros s H; [by destruct s|].
  destruct s as [|y s]; [done|]. simpl in H.
  apply andb_prop in H as [Hx H]. apply ascii_eqb_true in Hx as ->.
  rewrite sapp_cons. simpl. by rewrite <- IH.
Qed.

Lemma occurs_app (p a b : string) : occurs p (a +:+ p +:+ b) = true.
Proof.
  induction a as [|c a IH].
  - rewrite sapp_nil_l. destruct (p +:+ b) eqn:E; simpl;
      rewrite <- E, starts_with_app; done.
  - rewrite sapp_cons. simpl. rewrite IH. apply orb_true_r.
Qed.

Lemma occurs_app_r (p a b : string) :
  occurs p b = true → occurs p (a +:+ b) = true.
Proof.
  intros H. induction a as [|c a IH]; [done|].
  rewrite sapp_cons. simpl. rewrite IH. apply orb_true_r.
Qed.

(** The first occurrence of a literal. *)
Lemma occurs_first (p s : string) :
  p ≠ "" → occurs p s = true →
  ∃ a b, s = a +:+ p +:+ b ∧ occurs p a = false.
Proof.
  intros Np. induction s as [|c s IH]; intros H.
  - destruct p; [done | discriminate].
  - destruct (starts_with p (String c s)) eqn:E.
    + exists "", (drop (String.length p) (String c s)). split.
      * rewrite sapp_nil_l. by apply starts_with_inv.
      * by destruct p.
    + simpl in H. rewrite E in H. simpl in H.
      destruct (IH H) as (a & b & -> & Ha).
      exists (String c a), b. split; [done|].
      simpl. rewrite Ha, orb_false_r.
      destruct (starts_with p (String c a)) eqn:E'; [|done].
      apply (starts_with_app_l _ _ (p +:+ b)) in E'.
      rewrite sapp_cons in E'. congruence.
Qed.

Lemma drop_app (p a : string) :
  drop (String.length p) (p +:+ a) = a.
Proof. induction p as [|x p IH]; [by destruct a | done]. Qed.

(** The first span of a text that has one. *)
Lemma first_span (s : string) :
  has_span s = true →
  ∃ pre body rest,
    s = pre +:+ open_tag +:+ body +:+ close_tag +:+ rest
    ∧ occurs open_tag pre = false ∧ occurs close_tag body = false.
Proof.
  induction s as [|c s IH]; intros H; [discriminate|].
  change (has_span (String c s))
    with ((starts_with open_tag (String c s)
           && occurs close_tag (drop 9 (String c s))) || has_span s) in H.
  destruct (starts_with open_tag (String c s)
            && occurs close_tag (drop 9 (String c s))) eqn:A.
  - apply andb_prop in A as [A1 A2].
    apply occurs_first in A2 as (body & rest & E & Hb); [|done].
    exists "", body, rest. repeat split; [|done].
    rewrite sapp_nil_l, <- E. by apply (starts_with_inv open_tag).
  - rewrite orb_false_l in H.
    destruct (IH H) as (pre & body & rest & -> & Hp & Hb).
    exists (String c pre), body, rest. repeat split; [|done].
    simpl. rewrite Hp, orb_false_r.
    destruct (starts_with open_tag (String c pre)) eqn:E; [|done].
    exfalso.
    pose proof (starts_with_app_l _ _
                  (open_tag +:+ body +:+ close_tag +:+ rest) E) as E1.
    rewrite sapp_cons in E1. rewrite E1, andb_true_l in A.
    apply starts_with_inv in E.
    rewrite <- sapp_cons, E, sapp_assoc in A.
    change 9%nat with (String.length open_tag) in A at 1.
    rewrite drop_app in A.
    rewrite occurs_app_r in A; [done|].
    rewrite <- sapp_assoc. apply occurs_app.
Qed.

Lemma assemble_length_rest (pre body rest : string) :
  (String.length rest
   < String.length (pre +:+ open_tag +:+ body +:+ close_tag +:+ rest))%nat.
Proof. rewrite !slength_app. simpl. lia. Qed.

(** Every text is made of clean spans and a tail without span. *)
Lemma span_decomposition (text : string) :
  ∃ spans tail,
    text = assemble spans tail
    ∧ forallb clean_span spans = true ∧ has_span tail = false.
Proof.
  remember (String.length text) as n eqn:Hn.
  revert text Hn. induction n as [n IH] using lt_wf_ind. intros text Hn.
  destruct (has_span text) eqn:H.
  - destruct (first_span text H) as (pre & body & rest & E & Hp & Hb).
    destruct (IH (String.length rest)) with (text := rest)
      as (spans & tail & Er & Hs & Ht); [|done|].
    + subst. apply assemble_length_rest.
    + exists ((pre, body) :: spans), tail.
      split; [simpl; by rewrite <- Er | split; [|done]].
      cbn [forallb]. rewrite Hs, andb_true_r.
      unfold clean_span. simpl. by rewrite Hp, Hb.
  - by exists [], text.
Qed.

End SpanDecomposition.

Section TrimFacts.
Import Privacy.

Lemma trimStart_split (s : string) :
  ∃ l, s = l +:+ trimStart s ∧ all_space l = true.
Proof.
  induction s as [|c s (l & E & A)]; [by exists ""|].
  simpl. destruct (is_space c) eqn:C.
  - exists (String c l). rewrite sapp_cons, <- E. simpl. by rewrite C, A.
  - by exists "".
Qed.

Lemma trimStart_first (s : string) :
  from_option is_space false (first_char (trimStart s)) = false.
Proof.
  induction s as [|c s IH]; [done|].
  simpl. destruct (is_space c) eqn:C; [done | by simpl].
Qed.

Lemma trimEnd_split (s : string) :
  ∃ r, s = trimEnd s +:+ r ∧ all_space r = true.
Proof.
  induction s as [|c s (r & E & A)]; [by exists ""|].
  simpl. destruct (trimEnd s) as [|d t] eqn:T.
  - rewrite sapp_nil_l in E. subst r.
    destruct (is_space c) eqn:C.
    + exists (String c s). simpl. by rewrite C, A.
    + by exists s.
  - exists r. rewrite sapp_cons, <- E. done.
Qed.

Lemma trimEnd_last (s : string) :
  from_option is_space false (last_char (trimEnd s)) = false.
Proof.
  induction s as [|c s IH]; [done|].
  simpl. destruct (trimEnd s) as [|d t] eqn:T.
  - destruct (is_space c) eqn:C; [done | by simpl].
  - exact IH.
Qed.

Lemma trimEnd_first (s : string) :
  from_option is_space false (first_char s) = false →
  first_char (trimEnd s) = first_char s.
Proof.
  destruct s as [|c s]; [done|]. simpl. intros C.
  destruct (trimEnd s); [by rewrite C | done].
Qed.

(** [trim] takes white space, and only white space, off both ends. *)
Lemma trim_spec (s : string) :
  ∃ l r, s = l +:+ trim s +:+ r
         ∧ all_space l = true ∧ all_space r = true
         ∧ unpadded (trim s) = true.
Proof.
  destruct (trimStart_split s) as (l & El & Al).
  destruct (trimEnd_split (trimStart s)) as (r & Er & Ar).
  exists l, r. unfold trim, unpadded. repeat split; try done.
  - by rewrite <- Er.
  - rewrite trimEnd_first by apply trimStart_first.
    by rewrite trimStart_first, trimEnd_last.
Qed.

Lemma strip_some (t : string) :
  stripPrivateContent (Some t) = trim (replace_private 0 t).
Proof. by destruct t. Qed.

Lemma length_zero_iff (s : string) :
  Nat.eqb (String.length s) 0 = true ↔ s = "".
Proof. destruct s; simpl; split; (done || discriminate). Qed.

End TrimFacts.

(** C6: [stripPrivateContent] gives the empty string for undefined and
    for empty input; from a text made of any number of spans
    [<private>body</private>], whatever code units the bodies hold (line
    breaks included), it removes every span and keeps the rest, then
    trims it, and every text is made of such spans; [trim] takes white
    space and only white space off both ends;
    strip("a<private>x</private>b") = "ab"; and [isFullyPrivate] holds
    exactly when stripping gives the empty string. *)
Theorem C6_stripPrivateContent :
  (Privacy.stripPrivateContent None = ""
   ∧ Privacy.stripPrivateContent (Some "") = "")
  ∧ (∀ (spans : list (string * string)) (tail : string),
       forallb Privacy.clean_span spans = true →
       Privacy.has_span tail = false →
       Privacy.stripPrivateContent (Some (Privacy.assemble spans tail))
       = Privacy.trim (Privacy.kept spans tail))
  ∧ (∀ text : string,
       ∃ spans tail,
         text = Privacy.assemble spans tail
         ∧ forallb Privacy.clean_span spans = true
         ∧ Privacy.has_span tail = false)
  ∧ (∀ s : string,
       ∃ l r, s = l +:+ Privacy.trim s +:+ r
              ∧ Privacy.all_space l = true ∧ Privacy.all_space r = true
              ∧ Privacy.unpadded (Privacy.trim s) = true)
  ∧ Privacy.stripPrivateContent (Some "a<private>x</private>b") = "ab"
  ∧ (∀ text : option string,
       Privacy.isFullyPrivate text = true
       ↔ Privacy.stripPrivateContent text = "").
Proof.
  split; [by split|].
  split; [|split; [exact span_decomposition|
                   split; [exact trim_spec|split; [done|]]]].
  - intros spans tail Hs Ht. by rewrite strip_some, replace_assemble.
  - intros text. unfold Privacy.isFullyPrivate. apply length_zero_iff.
Qed.

Lemma C6_stripPrivateContent_witness :
  Privacy.stripPrivateContent
    (Some (Privacy.assemble
             [(" start", "line1" +:+ Context.nl +:+ "line2" +:+ Context.nl);
              ("mid", "<private>2")]
             "end<private> "))
  = "startmidend<private>".
Proof.
  rewrite (proj1 (proj2 C6_stripPrivateContent)
             [(" start", "line1" +:+ Context.nl +:+ "line2" +:+ Context.nl);
              ("mid", "<private>2")]
             "end<private> ").
  - vm_compute. reflexivity.
  - vm_compute. reflexivity.
  - vm_compute. reflexivity.
Defined.

Example isFullyPrivate_multiline :
  Privacy.isFullyPrivate
    (Some ("<private>x" +:+ Context.nl +:+ "</private>")) = true.
Proof. vm_compute. reflexivity. Qed.

Example isFullyPrivate_keep :
  Privacy.isFullyPrivate (Some "keep<private>x</private>") = false.
Proof. vm_compute. reflexivity. Qed.

(** ** Container tags *)

Section TagFacts.
Import Tags.

Variable username : string.
Variable basename : string → string.

Lemma truthy_some (s : string) : s ≠ "" → truthy (Some s) = true.
Proof. by destruct s. Qed.

Lemma override_user (directory : string) (o : TagOverrides) (s : string) :
  containerTagUser o = Some s → s ≠ "" →
  user (getTagsWithOverrides username basename directory (Some o)) = s.
Proof.
  intros E N. unfold getTagsWithOverrides. simpl. rewrite E.
  rewrite (truthy_some s N). simpl.
  by destruct (truthy (containerTagProject o)).
Qed.

Lemma override_project (directory : string) (o : TagOverrides) (s : string) :
  containerTagProject o = Some s → s ≠ "" →
  project (getTagsWithOverrides username basename directory (Some o)) = s.
Proof.
  intros E N. unfold getTagsWithOverrides. simpl. rewrite E.
  by rewrite (truthy_some s N).
Qed.

Lemma empty_user (directory : string) (o : TagOverrides) :
  containerTagUser o = Some "" →
  user (getTagsWithOverrides username basename directory (Some o))
  = user (getTagsWithOverrides username basename directory None).
Proof.
  intros E. unfold getTagsWithOverrides. simpl. rewrite E. simpl.
  by destruct (truthy (containerTagProject o)).
Qed.

Lemma empty_project (directory : string) (o : TagOverrides) :
  containerTagProject o = Some "" →
  project (getTagsWithOverrides username basename directory (Some o))
  = project (getTagsWithOverrides username basename directory None).
Proof.
  intros E. unfold getTagsWithOverrides. simpl. rewrite E. simpl.
  by destruct (truthy (containerTagUser o)).
Qed.

End TagFacts.

(** C4, as stated, fails for the override string "": the test
    [if (overrides?.containerTagUser)] is false for it, and the tag that
    comes back is the hashed one. *)
Lemma C4_empty_override_is_not_returned :
  Tags.user
    (Tags.getTagsWithOverrides "alice" Tags.posix_basename "/tmp/foo"
       (Some {| Tags.containerTagUser := Some "";
                Tags.containerTagProject := Some "" |}))
  ≠ ""
  ∧ Tags.project
      (Tags.getTagsWithOverrides "alice" Tags.posix_basename "/tmp/foo"
         (Some {| Tags.containerTagUser := Some "";
                  Tags.containerTagProject := Some "" |}))
    ≠ "".
Proof. vm_compute. split; discriminate. Qed.

(** C4 (amended): for every host, directory and overrides object, an
    override that is supplied for a scope and is not the empty string is
    the tag of that scope, verbatim, whatever the directory and the
    account name hash to. *)
Theorem C4_nonempty_override_verbatim
    (username : string) (basename : string → string)
    (directory : string) (overrides : Tags.TagOverrides) (s : string) :
  s ≠ "" →
  (Tags.containerTagUser overrides = Some s →
   Tags.user
     (Tags.getTagsWithOverrides username basename directory (Some overrides))
   = s)
  ∧ (Tags.containerTagProject overrides = Some s →
     Tags.project
       (Tags.getTagsWithOverrides username basename directory
          (Some overrides))
     = s).
Proof.
  intros N. split; intros E.
  - by apply override_user.
  - by apply override_project.
Qed.

Lemma C4_nonempty_override_verbatim_witness :
  Tags.user
    (Tags.getTagsWithOverrides "alice" Tags.posix_basename "/tmp/foo"
       (Some {| Tags.containerTagUser := Some "custom-user-tag";
                Tags.containerTagProject := None |}))
  = "custom-user-tag".
Proof.
  apply (proj1 (C4_nonempty_override_verbatim "alice" Tags.posix_basename
                  "/tmp/foo"
                  {| Tags.containerTagUser := Some "custom-user-tag";
                     Tags.containerTagProject := None |}
                  "custom-user-tag" ltac:(discriminate))).
  reflexivity.
Defined.

(** C10: for every host and directory, an override that is the empty
    string is ignored: the tag of that scope is the derived one, the same
    as with no overrides object at all; and the empty string is what
    [writeMomoConfig] writes for both override fields when no earlier
    file sets them. *)
Theorem C10_empty_override_ignored
    (username : string) (basename : string → string)
    (directory : string) (overrides : Tags.TagOverrides) :
  (Tags.containerTagUser overrides = Some "" →
   Tags.user
     (Tags.getTagsWithOverrides username basename directory (Some overrides))
   = Tags.user (Tags.getTagsWithOverrides username basename directory None)
   ∧ Tags.user
       (Tags.getTagsWithOverrides username basename directory None)
     = Tags.userTag username)
  ∧ (Tags.containerTagProject overrides = Some "" →
     Tags.project
       (Tags.getTagsWithOverrides username basename directory
          (Some overrides))
     = Tags.project
         (Tags.getTagsWithOverrides username basename directory None)
     ∧ Tags.project
         (Tags.getTagsWithOverrides username basename directory None)
       = Tags.projectTag basename directory)
  ∧ (∀ options : Cli.Options,
       ∃ written : Cli.Written,
         Cli.writeMomoConfig_config options Config.empty_file
         = Config.Ok written
         ∧ Cli.w_containerTagUser written = ""
         ∧ Cli.w_containerTagProject written = ""
         ∧ Tags.getTagsWithOverrides username basename directory
             (Some {| Tags.containerTagUser :=
                        Some (Cli.w_containerTagUser written);
                      Tags.containerTagProject :=
                        Some (Cli.w_containerTagProject written) |})
           = Tags.getTags username basename directory).
Proof.
  split; [|split].
  - intros E. split; [by apply empty_user | done].
  - intros E. split; [by apply empty_project | done].
  - intros options. eexists. split; [reflexivity|]. done.
Qed.

Lemma C10_empty_override_ignored_witness :
  Tags.user
    (Tags.getTagsWithOverrides "alice" Tags.posix_basename "/tmp/foo"
       (Some {| Tags.containerTagUser := Some "";
                Tags.containerTagProject := Some "p" |}))
  = Tags.user
      (Tags.getTagsWithOverrides "alice" Tags.posix_basename "/tmp/foo" None).
Proof.
  apply (proj1 (C10_empty_override_ignored "alice" Tags.posix_basename
                  "/tmp/foo"
                  {| Tags.containerTagUser := Some "";
                     Tags.containerTagProject := Some "p" |})).
  reflexivity.
Defined.

(** ** Configuration *)

Section ConfigFacts.
Import Config.

Variable join : list string → string.
Variable homedir : string.
Variable stripJsoncComments : string → string.
Variable JSON_parse : string → option Json.
Variable env : Env.
Variable fs : string → FileState.

Lemma get_field (source : Json) (key : string) :
  source ≠ JNull → get source key = Ok (field source key).
Proof. by destruct source. Qed.

Lemma env_value_set (variable : option string) :
  first_set [env_value variable] = env_value variable.
Proof. by destruct variable. Qed.

(** A chain [e ?? p ?? g] over values that are read without error. *)
Lemma chain_resolved (e p g : Value) :
  ∃ v, nullish (nullish (Ok e) (Ok p)) (Ok g) = Ok v
       ∧ resolved [e; p; g] v.
Proof.
  unfold resolved, nullish, first_set.
  destruct e as [[]|]; cbn [is_nullish]; try (by eexists);
    destruct p as [[]|]; cbn [is_nullish]; try (by eexists);
    destruct g as [[]|]; by eexists.
Qed.

Lemma chain_default (e p g : Value) (d : string) :
  nullish (nullish (nullish (Ok e) (Ok p)) (Ok g)) (Ok (Some (JString d)))
  = Ok (first_set [e; p; g; Some (JString d)]).
Proof.
  unfold nullish, first_set.
  destruct e as [[]|]; cbn [is_nullish]; try done;
    destruct p as [[]|]; cbn [is_nullish]; try done;
    by destruct g as [[]|].
Qed.

Lemma resolved_skip_mid (e g v : Value) :
  resolved [e; Some JNull; g] v → resolved [e; g] v.
Proof. unfold resolved, first_set. by destruct (is_nullish e). Qed.

Lemma read_source (path : string) :
  readJsoncConfigFile stripJsoncComments JSON_parse fs path
  = source_at stripJsoncComments JSON_parse fs path.
Proof.
  unfold readJsoncConfigFile, try_read, source_at.
  by destruct (fs path) as [| |raw].
Qed.

Lemma global_path_code :
  join [getConfigDir join homedir env; "momo.jsonc"]
  = global_path join homedir env.
Proof.
  unfold getConfigDir, global_path.
  by destruct (XDG_CONFIG_HOME env) as [[|c xdg]|].
Qed.

Lemma readConfigFile_source :
  readConfigFile join homedir stripJsoncComments JSON_parse env fs
  = global_source join homedir stripJsoncComments JSON_parse env fs.
Proof.
  unfold readConfigFile, global_source.
  by rewrite read_source, global_path_code.
Qed.

Lemma readProjectConfigFile_source (directory : option string) :
  readProjectConfigFile join stripJsoncComments JSON_parse fs directory
  = project_source join stripJsoncComments JSON_parse fs directory.
Proof.
  unfold readProjectConfigFile, project_source, existsSync.
  destruct directory as [[|c dir]|]; [done | | done].
  cbn [truthy negb default from_option id]. rewrite !read_source.
  destruct (fs (join [String c dir; ".momo.jsonc"])); [|done|done].
  unfold source_at.
  by destruct (fs (join [String c dir; "momo.jsonc"])).
Qed.



(** The result of [loadConfig] when neither file holds [null]. *)
Lemma loadConfig_resolved (directory : option string) :
  let project :=
    project_source join stripJsoncComments JSON_parse fs directory in
  let global :=
    global_source join homedir stripJsoncComments JSON_parse env fs in
  project ≠ JNull → global ≠ JNull →
  ∃ config,
    loadConfig join homedir stripJsoncComments JSON_parse env fs directory
    = Ok config
    ∧ resolved [env_value (MOMO_API_KEY env);
                field project "apiKey"; field global "apiKey"]
        (apiKey config)
    ∧ baseUrl config
      = first_set [env_value (MOMO_BASE_URL env);
                   field project "baseUrl"; field global "baseUrl";
                   Some (JString DEFAULT_BASE_URL)]
    ∧ resolved [env_value (MOMO_CONTAINER_TAG_USER env);
                field project "containerTagUser";
                field global "containerTagUser"]
        (containerTagUser config)
    ∧ resolved [env_value (MOMO_CONTAINER_TAG_PROJECT env);
                field project "containerTagProject";
                field global "containerTagProject"]
        (containerTagProject config).
Proof.
  intros project global P G. unfold loadConfig.
  rewrite readConfigFile_source, readProjectConfigFile_source.
  fold project global.
  rewrite !(get_field project) by done.
  rewrite !(get_field global) by done.
  rewrite chain_default.
  destruct (chain_resolved (env_value (MOMO_API_KEY env))
              (field project "apiKey") (field global "apiKey"))
    as (k & -> & K).
  destruct (chain_resolved (env_value (MOMO_CONTAINER_TAG_USER env))
              (field project "containerTagUser")
              (field global "containerTagUser")) as (u & -> & U).
  destruct (chain_resolved (env_value (MOMO_CONTAINER_TAG_PROJECT env))
              (field project "containerTagProject")
              (field global "containerTagProject")) as (p & -> & Pr).
  eexists. split; [reflexivity|]. by repeat split.
Qed.






(** With no project directory and no tag variables in the environment,
    the project-aware [loadConfig] is the single-level one. *)
Lemma loadConfig_single_agrees :
  MOMO_CONTAINER_TAG_USER env = None →
  MOMO_CONTAINER_TAG_PROJECT env = None →
  loadConfig join homedir stripJsoncComments JSON_parse env fs None
  = loadConfig_single join homedir stripJsoncComments JSON_parse env fs.
Proof.
  intros U P. unfold loadConfig, loadConfig_single. rewrite U, P.
  cbn [readProjectConfigFile truthy negb env_value empty_file get
       own_property].
  assert (∀ (e : Value) (x : Result Value),
            nullish (nullish (Ok e) (Ok None)) x = nullish (Ok e) x) as A
    by (by intros [[]|] x).
  by rewrite !A.
Qed.

End ConfigFacts.







Example loadConfig_falls_through_per_field :
  Config.loadConfig Sample.join Sample.homedir Sample.stripJsoncComments
    Sample.JSON_parse Sample.env Sample.fs (Some "/work/app")
  = Config.Ok
      {| Config.apiKey := Some (Config.JString "project-key");
         Config.baseUrl := Some (Config.JString "http://global:3000");
         Config.containerTagUser := Some (Config.JString "env-user");
         Config.containerTagProject :=
           Some (Config.JString "project-tag") |}.
Proof. vm_compute. reflexivity. Qed.

(** A field that a file sets to [null] counts as not set, and a value
    that is not a string is passed on as it is. *)
Example loadConfig_null_field_falls_through :
  Config.loadConfig (Context.join "/") "/home/alice" (λ raw, raw)
    (λ text,
       if String.eqb text "p" then
         Some (Config.JObject [("apiKey", Config.JNull);
                               ("baseUrl", Config.JNumber "8080")])
       else Some (Config.JObject [("apiKey", Config.JString "g")]))
    Sample.env_empty
    (λ path, Config.Content (if String.eqb path "/w/.momo.jsonc"
                             then "p" else "g"))
    (Some "/w")
  = Config.Ok
      {| Config.apiKey := Some (Config.JString "g");
         Config.baseUrl := Some (Config.JNumber "8080");
         Config.containerTagUser := None;
         Config.containerTagProject := None |}.
Proof. vm_compute. reflexivity. Qed.


(** ** Context formatting *)

Section ContextFacts.
Import Context.

(** The result in terms of the sections in their fixed order. *)
Lemma format_by_sections (profile : option ProfileData)
    (userMemories projectMemories : list MemoryItem) :
  formatContextForPrompt profile userMemories projectMemories
  = match sections_in_order profile userMemories projectMemories with
    | [] => ""
    | ss => BEGIN_MARKER +:+ nl +:+ nl +:+ join (nl +:+ nl) ss
            +:+ nl +:+ nl +:+ END_MARKER
    end.
Proof.
  unfold formatContextForPrompt, sections_in_order, profile_section,
    preferences_section, memory_section.
  destruct (profile ≫= summary) as [[|c s]|];
    destruct (profile ≫= traits) as [[|t ts]|];
    destruct userMemories as [|u us];
    destruct projectMemories as [|q qs]; reflexivity.
Qed.

Lemma sections_empty_iff (profile : option ProfileData)
    (userMemories projectMemories : list MemoryItem) :
  sections_in_order profile userMemories projectMemories = []
  ↔ no_content profile userMemories projectMemories.
Proof.
  unfold sections_in_order, no_content, profile_section,
    preferences_section, memory_section.
  destruct (profile ≫= summary) as [[|c s]|];
    destruct (profile ≫= traits) as [[|t ts]|];
    destruct userMemories as [|u us];
    destruct projectMemories as [|q qs]; simpl;
    split; try discriminate; try tauto;
    try (intros (? & ? & ? & ?); discriminate);
    try (intros (? & [?|?] & ? & ?); discriminate).
Qed.

End ContextFacts.

(** C7: [formatContextForPrompt] returns the empty string exactly when
    no section has content (no non-empty summary, no trait, no user
    memory and no project memory); otherwise the result is one block
    that starts with the begin marker, ends with the end marker and
    holds the sections that have content in the order profile summary,
    known preferences, user memories, project memories; the lines of a
    memory section follow the input order, and a line carries the
    bracketed type label when the memory has a memoryType (a non-empty
    string, by the truthiness test of the source) and none otherwise;
    format(undefined, [], []) = "". *)
Theorem C7_formatContextForPrompt :
  (∀ profile userMemories projectMemories,
     Context.formatContextForPrompt profile userMemories projectMemories = ""
     ↔ Context.no_content profile userMemories projectMemories)
  ∧ (∀ profile userMemories projectMemories,
       ¬ Context.no_content profile userMemories projectMemories →
       Context.formatContextForPrompt profile userMemories projectMemories
       = Context.BEGIN_MARKER +:+ Context.nl +:+ Context.nl
         +:+ Context.join (Context.nl +:+ Context.nl)
               (Context.sections_in_order profile userMemories
                  projectMemories)
         +:+ Context.nl +:+ Context.nl +:+ Context.END_MARKER)
  ∧ (∀ heading memories,
       memories ≠ [] →
       Context.memory_section heading memories
       = Some (heading +:+ Context.nl +:+
                 Context.join Context.nl
                   (map Context.memory_line memories))
       ∧ ∀ (i : nat) (m : Context.MemoryItem),
           memories !! i = Some m →
           map Context.memory_line memories !! i
           = Some (Context.memory_line m))
  ∧ (∀ (m : Context.MemoryItem) (t : string),
       Context.memoryType m = Some t → t ≠ "" →
       Context.memory_line m
       = "- " +:+ Context.interpolate (Context.content m)
         +:+ " [" +:+ t +:+ "]")
  ∧ (∀ m : Context.MemoryItem,
       truthy (Context.memoryType m) = false →
       Context.memory_line m
       = "- " +:+ Context.interpolate (Context.content m))
  ∧ Context.formatContextForPrompt None [] [] = "".
Proof.
  split; [|split; [|split; [|split; [|split]]]].
  - intros profile u q. rewrite format_by_sections.
    rewrite <- sections_empty_iff.
    destruct (Context.sections_in_order profile u q); [done|].
    split; discriminate.
  - intros profile u q N. rewrite format_by_sections.
    rewrite <- sections_empty_iff in N.
    by destruct (Context.sections_in_order profile u q).
  - intros heading memories N. split.
    + by destruct memories.
    + intros i m E. by rewrite list_lookup_fmap, E.
  - intros m t E N. unfold Context.memory_line. rewrite E.
    by destruct t.
  - intros m E. unfold Context.memory_line. by rewrite E, sapp_nil_r.
  - reflexivity.
Qed.

Lemma C7_formatContextForPrompt_witness :
  Context.formatContextForPrompt
    (Some {| Context.summary := Some "S"; Context.traits := None |}) [] []
  = Context.BEGIN_MARKER +:+ Context.nl +:+ Context.nl
    +:+ Context.join (Context.nl +:+ Context.nl)
          (Context.sections_in_order
             (Some {| Context.summary := Some "S"; Context.traits := None |})
             [] [])
    +:+ Context.nl +:+ Context.nl +:+ Context.END_MARKER.
Proof.
  apply (proj1 (proj2 C7_formatContextForPrompt)).
  unfold Context.no_content. simpl. intros [H _]. discriminate H.
Defined.

Example format_summary_only :
  Context.formatContextForPrompt
    (Some {| Context.summary := Some "S"; Context.traits := None |}) [] []
  = "[MOMO MEMORY - Context from previous sessions]" +:+ Context.nl
    +:+ Context.nl +:+ "## User Profile" +:+ Context.nl +:+ "S"
    +:+ Context.nl +:+ Context.nl +:+ "[END MOMO MEMORY]".
Proof. vm_compute. reflexivity. Qed.

Example format_all_sections :
  Context.sections_in_order
    (Some {| Context.summary := Some "S"; Context.traits := Some ["a"; "b"] |})
    [{| Context.content := Some "u1"; Context.memoryType := Some "fact";
        Context.id := None; Context.createdAt := None |};
     {| Context.content := None; Context.memoryType := None;
        Context.id := None; Context.createdAt := None |}]
    [{| Context.content := Some "p1"; Context.memoryType := Some "";
        Context.id := None; Context.createdAt := None |}]
  = ["## User Profile" +:+ Context.nl +:+ "S";
     "## Known Preferences" +:+ Context.nl +:+ "- a" +:+ Context.nl +:+ "- b";
     "## Recent User Context" +:+ Context.nl +:+ "- u1 [fact]"
       +:+ Context.nl +:+ "- undefined";
     "## Project Knowledge" +:+ Context.nl +:+ "- p1"].
Proof. vm_compute. reflexivity. Qed.

(** ** Injection hook *)

Section InjectionFacts.
Import Injection.

Implicit Types (S : gset string) (sid : string).

(** A session that is already marked gets nothing. *)
Lemma hook_marked configured backend S input parts :
  sessionID input ∈ S →
  chatMessageHook configured backend S input parts = (S, parts).
Proof.
  intros H. unfold chatMessageHook. by rewrite bool_decide_eq_true_2.
Qed.

(** One call: the parts are unchanged, or one synthetic part is put in
    front and the session is marked; marks are never removed. *)
Lemma hook_step configured backend S input parts :
  let r := chatMessageHook configured backend S input parts in
  S ⊆ r.1
  ∧ (r.2 = parts
     ∨ ∃ p, r.2 = p :: parts ∧ part_synthetic p = true
            ∧ part_sessionID p = sessionID input
            ∧ sessionID input ∈ r.1).
Proof.
  unfold chatMessageHook.
  set (contextText := Context.formatContextForPrompt _ _ _).
  destruct (bool_decide (sessionID input ∈ S)); [by split; [|left]|].
  destruct configured; [|by split; [|left]].
  cbn [negb]. destruct (negb (truthy (Some contextText))); cbn [fst snd].
  - split; [set_solver | by left].
  - split; [set_solver|]. right. eexists.
    split; [reflexivity|]. split; [reflexivity|].
    split; [reflexivity | set_solver].
Qed.

Lemma hook_added_le configured backend S input parts :
  (length (chatMessageHook configured backend S input parts).2
   - length parts ≤ 1)%nat.
Proof.
  destruct (hook_step configured backend S input parts)
    as [_ [E | (p & E & _)]]; rewrite E; simpl; lia.
Qed.

Lemma hook_added_marks configured backend S input parts :
  (0 < length (chatMessageHook configured backend S input parts).2
       - length parts)%nat →
  sessionID input ∈ (chatMessageHook configured backend S input parts).1.
Proof.
  destruct (hook_step configured backend S input parts)
    as [_ [E | (p & E & _ & _ & M)]]; rewrite E; simpl; [lia | done].
Qed.

Lemma invoke_all_cons c rest S :
  (invoke_all (c :: rest) S).2
  = (sessionID (call_input c),
     (length (chatMessageHook (call_configured c) (call_backend c) S
                (call_input c) (call_parts c)).2
      - length (call_parts c))%nat)
    :: (invoke_all rest
          (chatMessageHook (call_configured c) (call_backend c) S
             (call_input c) (call_parts c)).1).2.
Proof.
  simpl.
  destruct (chatMessageHook _ _ _ _ _) as [S' parts']; simpl.
  by destruct (invoke_all rest S').
Qed.

Lemma added_marked calls S sid :
  sid ∈ S → added_for sid (invoke_all calls S).2 = 0%nat.
Proof.
  revert S. induction calls as [|c rest IH]; intros S H; [done|].
  rewrite invoke_all_cons. simpl.
  pose proof (hook_step (call_configured c) (call_backend c) S
                (call_input c) (call_parts c)) as [Sub _].
  rewrite IH by set_solver.
  destruct (String.eqb_spec (sessionID (call_input c)) sid) as [Q|N];
    [|done].
  rewrite hook_marked by (by rewrite Q). simpl. lia.
Qed.

End InjectionFacts.

(** C8: whatever the calls of the chat.message hook, one after the
    other, for whatever sessions, with the three fetches of every call
    resolving or rejecting, the calls for one session id put at most one
    part in total in front of the parts lists they are given; and one
    call leaves its list as it is or puts one synthetic part of that
    session in front of it. *)
Theorem C8_injection_at_most_once :
  (∀ (calls : list Injection.Call) (injectedSessions : gset string)
     (sid : string),
     (Injection.added_for sid
        (Injection.invoke_all calls injectedSessions).2 ≤ 1)%nat)
  ∧ (∀ configured backend (injectedSessions : gset string) input parts,
       let after :=
         (Injection.chatMessageHook configured backend injectedSessions
            input parts).2 in
       after = parts
       ∨ ∃ p, after = p :: parts
              ∧ Injection.part_synthetic p = true
              ∧ Injection.part_sessionID p = Injection.sessionID input).
Proof.
  split.
  - intros calls. induction calls as [|c rest IH]; intros S sid; [simpl; lia|].
    rewrite invoke_all_cons. simpl.
    set (r := Injection.chatMessageHook (Injection.call_configured c)
                (Injection.call_backend c) S (Injection.call_input c)
                (Injection.call_parts c)).
    pose proof (hook_added_le (Injection.call_configured c)
                  (Injection.call_backend c) S (Injection.call_input c)
                  (Injection.call_parts c)) as L.
    pose proof (hook_added_marks (Injection.call_configured c)
                  (Injection.call_backend c) S (Injection.call_input c)
                  (Injection.call_parts c)) as M.
    fold r in L, M.
    destruct (String.eqb_spec (Injection.sessionID (Injection.call_input c))
                sid) as [Q|N].
    + destruct (decide (0 < length r.2
                            - length (Injection.call_parts c))%nat) as [P|P].
      * rewrite added_marked by (rewrite <- Q; by apply M). lia.
      * specialize (IH r.1 sid). lia.
    + specialize (IH r.1 sid). lia.
  - intros configured backend S input parts after.
    destruct (hook_step configured backend S input parts)
      as [_ [E | (p & E & Y & I & _)]]; [by left | right; eauto].
Qed.

(** ** Ingestion polling *)

Section PollerFacts.
Import Poller Vocabulary.

Variable ingestionId : string.
Variables start timeoutMs pollIntervalMs : Z.

(** A terminal result is the first reply that is terminal, to a request
    made inside the budget, every turn before having kept the loop
    going. *)
Lemma poll_terminal (turns : list Turn) (r : IngestionStatus) :
  (poll ingestionId start timeoutMs pollIntervalMs turns).1
  = Some (Returned r) →
  is_terminal (status r) = true →
  ∃ (pre : list Turn) (turn : Turn) (post : list Turn),
    turns = pre ++ turn :: post
    ∧ Forall (keeps_polling start timeoutMs) pre
    ∧ reply turn = Reports r
    ∧ now turn - start < timeoutMs.
Proof.
  induction turns as [|turn rest IH]; simpl; [discriminate|].
  destruct (Z.ltb_spec (now turn - start) timeoutMs) as [B|B].
  - destruct (reply turn) as [|s] eqn:R; simpl; [discriminate|].
    destruct (is_terminal (status s)) eqn:T; simpl.
    + intros [= <-] _. exists [], turn, rest.
      split; [done|]. split; [constructor|]. split; [by destruct s | done].
    + destruct (poll ingestionId start timeoutMs pollIntervalMs rest)
        as [outcome log]; simpl in *.
      intros E Tr. destruct (IH E Tr) as (pre & t & post & -> & P & H).
      exists (turn :: pre), t, post. split; [done|]. split; [|done].
      constructor; [|done]. split; [done|]. by exists s.
  - simpl. intros [= <-]. discriminate.
Qed.

(** The turns that keep the loop going each add one round to the log
    and leave the outcome to the turns after them. *)
Lemma poll_rounds (pre rest : list Turn) :
  Forall (keeps_polling start timeoutMs) pre →
  poll ingestionId start timeoutMs pollIntervalMs (pre ++ rest)
  = ((poll ingestionId start timeoutMs pollIntervalMs rest).1,
     rounds ingestionId timeoutMs pollIntervalMs (length pre)
     ++ (poll ingestionId start timeoutMs pollIntervalMs rest).2).
Proof.
  intros P. induction P as [|t pre [B (s & R & T)] P IH].
  - simpl. by destruct (poll ingestionId start timeoutMs pollIntervalMs rest).
  - simpl. destruct (Z.ltb_spec (now t - start) timeoutMs); [|lia].
    rewrite R, T, IH. reflexivity.
Qed.

Lemma terminal_status (s : string) :
  s = "completed" ∨ s = "failed" → is_terminal s = true.
Proof. by intros [-> | ->]. Qed.

Lemma poll_timeout (pre : list Turn) (turn : Turn) (post : list Turn) :
  Forall still_pending pre →
  timeoutMs ≤ now turn - start →
  (poll ingestionId start timeoutMs pollIntervalMs
     (pre ++ turn :: post)).1
  = Some (Returned processing).
Proof.
  intros P B. induction P as [|t pre (s & R & T) P IH]; simpl.
  - destruct (Z.ltb_spec (now turn - start) timeoutMs); [lia | done].
  - destruct (Z.ltb_spec (now t - start) timeoutMs); [|done].
    rewrite R, T.
    by destruct (poll ingestionId start timeoutMs pollIntervalMs _).
Qed.

Lemma poll_fixed_interval (turns : list Turn) :
  fixed_interval ingestionId timeoutMs pollIntervalMs
    (poll ingestionId start timeoutMs pollIntervalMs turns).2.
Proof.
  induction turns as [|turn rest IH]; simpl; [done|].
  destruct (now turn - start <? timeoutMs); [|done].
  destruct (reply turn) as [|s]; [done|].
  destruct (is_terminal (status s)); [done|].
  destruct (poll ingestionId start timeoutMs pollIntervalMs rest)
    as [outcome log]; simpl in *. by repeat split.
Qed.

End PollerFacts.

(** C9, as stated, fails on a reply that comes in late: the request is
    made one millisecond before a budget of 120000 ms runs out and the
    backend answers "completed" five seconds later; [waitForIngestion]
    returns "completed" although no reply with that status came in
    within the budget.  The clock is read in the loop test only, before
    each request. *)
Lemma C9_status_reported_after_the_budget :
  Poller.now Sample.slow_reply - 1700000000000 < 120000
  ∧ 120000 ≤ Poller.replied_at Sample.slow_reply - 1700000000000
  ∧ (Poller.waitForIngestion "ing-1" 120000 1500 1700000000000
       [Sample.slow_reply]).1
    = Some (Poller.Returned
              {| Poller.status := "completed"; Poller.title := Some "t";
                 Poller.documentId := Some "doc-1" |})
  ∧ ¬ Poller.reported_within_budget 1700000000000 120000
        [Sample.slow_reply] "completed".
Proof.
  split; [reflexivity|]. split; [vm_compute; discriminate|].
  split; [vm_compute; reflexivity|].
  intros (turn & s & I & _ & _ & B).
  apply list_elem_of_singleton in I. subst turn. simpl in B. lia.
Qed.

(** C9 (amended): for every trace of clock readings and backend
    replies, [waitForIngestion] returns "completed" or "failed" only
    when the backend reported that status in reply to a request that
    was made while the elapsed time was below [timeoutMs] (the reply
    itself may come in later), every reply before it having been a
    status that is not terminal; such a reply is returned as it is, one
    request having been made per turn with a wait of [pollIntervalMs]
    after each but the last; when a reading of the clock reaches
    [timeoutMs] after replies that were not terminal, the result is the
    synthetic status "processing" and nothing is raised, after one
    request and one wait per turn; and in every trace the waits are all
    [pollIntervalMs], one after each request that is not the last. *)
Theorem C9_waitForIngestion
    (ingestionId : string) (timeoutMs pollIntervalMs start : Z) :
  (∀ (turns : list Poller.Turn) (r : Poller.IngestionStatus),
     (Poller.waitForIngestion ingestionId timeoutMs pollIntervalMs start
        turns).1 = Some (Poller.Returned r) →
     Poller.status r = "completed" ∨ Poller.status r = "failed" →
     ∃ (pre : list Poller.Turn) (turn : Poller.Turn)
       (post : list Poller.Turn),
       turns = pre ++ turn :: post
       ∧ Forall (Vocabulary.keeps_polling start timeoutMs) pre
       ∧ Poller.reply turn = Poller.Reports r
       ∧ Poller.now turn - start < timeoutMs)
  ∧ (∀ (pre : list Poller.Turn) (turn : Poller.Turn)
       (post : list Poller.Turn) (s : Poller.IngestionStatus),
       Forall (Vocabulary.keeps_polling start timeoutMs) pre →
       Poller.now turn - start < timeoutMs →
       Poller.reply turn = Poller.Reports s →
       Poller.status s = "completed" ∨ Poller.status s = "failed" →
       Poller.waitForIngestion ingestionId timeoutMs pollIntervalMs start
         (pre ++ turn :: post)
       = (Some (Poller.Returned s),
          Poller.rounds ingestionId timeoutMs pollIntervalMs (length pre)
          ++ [Poller.Query ingestionId timeoutMs]))
  ∧ (∀ (pre : list Poller.Turn) (turn : Poller.Turn)
       (post : list Poller.Turn),
       Forall (Vocabulary.keeps_polling start timeoutMs) pre →
       timeoutMs ≤ Poller.now turn - start →
       Poller.waitForIngestion ingestionId timeoutMs pollIntervalMs start
         (pre ++ turn :: post)
       = (Some (Poller.Returned
                  {| Poller.status := "processing"; Poller.title := None;
                     Poller.documentId := None |}),
          Poller.rounds ingestionId timeoutMs pollIntervalMs (length pre)))
  ∧ (∀ (pre : list Poller.Turn) (turn : Poller.Turn)
       (post : list Poller.Turn),
       Forall Poller.still_pending pre →
       timeoutMs ≤ Poller.now turn - start →
       (Poller.waitForIngestion ingestionId timeoutMs pollIntervalMs start
          (pre ++ turn :: post)).1
       = Some (Poller.Returned
                 {| Poller.status := "processing"; Poller.title := None;
                    Poller.documentId := None |}))
  ∧ (∀ turns : list Poller.Turn,
       Poller.fixed_interval ingestionId timeoutMs pollIntervalMs
         (Poller.waitForIngestion ingestionId timeoutMs pollIntervalMs start
            turns).2).
Proof.
  split; [|split; [|split; [|split]]].
  - intros turns r E T. unfold Poller.waitForIngestion in E.
    by apply (poll_terminal ingestionId start timeoutMs pollIntervalMs
                turns r E), terminal_status.
  - intros pre turn post s P B R T. unfold Poller.waitForIngestion.
    rewrite poll_rounds by done. simpl.
    destruct (Z.ltb_spec (Poller.now turn - start) timeoutMs); [|lia].
    rewrite R, (terminal_status _ T). simpl. by destruct s.
  - intros pre turn post P B. unfold Poller.waitForIngestion.
    rewrite poll_rounds by done. simpl.
    destruct (Z.ltb_spec (Poller.now turn - start) timeoutMs); [lia|].
    simpl. by rewrite app_nil_r.
  - intros pre turn post P B. by apply poll_timeout.
  - intros turns. apply poll_fixed_interval.
Qed.

Lemma C9_waitForIngestion_witness :
  Poller.waitForIngestion "ing-1" 120000 1500 1700000000000
    ([Sample.pending; Sample.pending]
       ++ Sample.late 1700000120000 :: [])
  = (Some (Poller.Returned
             {| Poller.status := "processing"; Poller.title := None;
                Poller.documentId := None |}),
     [Poller.Query "ing-1" 120000; Poller.Delay 1500;
      Poller.Query "ing-1" 120000; Poller.Delay 1500]).
Proof.
  apply (proj1 (proj2 (proj2 (C9_waitForIngestion "ing-1" 120000 1500
                                1700000000000)))).
  - repeat constructor; eexists; split; reflexivity.
  - vm_compute. discriminate.
Defined.

Example waitForIngestion_completed_in_time :
  Poller.waitForIngestion "ing-1" 120000 1500 1700000000000
    [Sample.pending; Sample.late 1700000003000]
  = (Some (Poller.Returned
             {| Poller.status := "completed"; Poller.title := Some "t";
                Poller.documentId := Some "doc-1" |}),
     [Poller.Query "ing-1" 120000; Poller.Delay 1500;
      Poller.Query "ing-1" 120000]).
Proof. vm_compute. reflexivity. Qed.

(* ================================================================== *)
(** * Further properties *)

(** ** Compaction tracker: isolation, provenance and rate *)

Section CompactionMore.
Import Compaction Vocabulary.

Implicit Types (m : gmap string CompactionSessionState) (sid tag : string).

Lemma getState_other m sid s :
  s ≠ sid → (getState s m).2 !! sid = m !! sid.
Proof.
  intros N. unfold getState. destruct (m !! s); simpl; [done|].
  by rewrite lookup_insert_ne.
Qed.

Lemma step_other event now tag m sid :
  event_session event ≠ Some sid →
  (handleCompactionEvent event now tag m).1 !! sid = m !! sid.
Proof.
  intros N. destruct event as [s | info | s | ty]; simpl in *.
  - assert (s ≠ sid) as N' by congruence.
    pose proof (getState_other m sid s N') as G.
    destruct (getState s m) as [state states]; simpl in *.
    by rewrite lookup_insert_ne.
  - destruct (negb (String.eqb (role info) "assistant")); [done|].
    destruct (negb (is_true (summary info)) || negb (truthy (finish info)));
      [done|].
    assert (sessionID info ≠ sid) as N' by congruence.
    pose proof (getState_other m sid (sessionID info) N') as G.
    destruct (getState (sessionID info) m) as [state states]; simpl in *.
    destruct (negb (inProgress state)); [done|].
    destruct (now - lastCompaction state <? COMPACTION_COOLDOWN_MS); simpl;
      by rewrite lookup_insert_ne.
  - rewrite lookup_delete_ne; [done | congruence].
  - done.
Qed.

Lemma run_cons_out tag event now rest m :
  (run tag ((event, now) :: rest) m).2
  = (handleCompactionEvent event now tag m).2
    ++ (run tag rest (handleCompactionEvent event now tag m).1).2.
Proof.
  simpl. destruct (handleCompactionEvent event now tag m) as [m1 o1]; simpl.
  by destruct (run tag rest m1).
Qed.

(** What a single event emits: nothing, or the marker of its session. *)
Lemma step_out event now tag m :
  (handleCompactionEvent event now tag m).2 = []
  ∨ ∃ info st,
      event = MessageUpdated info
      ∧ role info = "assistant"
      ∧ m !! sessionID info = Some st ∧ inProgress st = true
      ∧ COMPACTION_COOLDOWN_MS ≤ now - lastCompaction st
      ∧ (handleCompactionEvent event now tag m).2
        = [marker (sessionID info) tag]
      ∧ (handleCompactionEvent event now tag m).1 !! sessionID info
        = Some {| lastCompaction := now; inProgress := false |}.
Proof.
  destruct event as [s | info | s | ty]; simpl.
  - left. by destruct (getState s m).
  - destruct (String.eqb_spec (role info) "assistant") as [R|R]; simpl;
      [|by left].
    destruct (negb (is_true (summary info)) || negb (truthy (finish info)));
      [by left|].
    unfold getState.
    destruct (m !! sessionID info) as [st|] eqn:E; simpl; [|by left].
    destruct (inProgress st) eqn:P; simpl; [|by left].
    destruct (Z.ltb_spec (now - lastCompaction st) COMPACTION_COOLDOWN_MS);
      simpl; [by left|].
    right. exists info, st. rewrite lookup_insert_eq. by repeat split.
  - by left.
  - by left.
Qed.

Lemma requests_for_app sid (a b : list IngestRequest) :
  requests_for sid (a ++ b) = (requests_for sid a + requests_for sid b)%nat.
Proof. induction a as [|r a IH]; simpl; [done | rewrite IH; lia]. Qed.

Lemma in_progress_other event now tag m sid :
  event_session event ≠ Some sid →
  in_progress (handleCompactionEvent event now tag m).1 sid
  = in_progress m sid.
Proof. intros N. unfold in_progress. by rewrite step_other. Qed.

(** One event: what it emits for a session and what it leaves awaited
    is covered by what was awaited and by the event being a compaction
    of that session. *)
Lemma step_budget event now tag m sid :
  (requests_for sid (handleCompactionEvent event now tag m).2
   + in_progress (handleCompactionEvent event now tag m).1 sid
   ≤ compactions_of sid [(event, now)] + in_progress m sid)%nat.
Proof.
  destruct (decide (event_session event = Some sid)) as [Q|N].
  - destruct event as [s | info | s | ty]; simpl in Q; try discriminate;
      injection Q as Q.
    + subst s. simpl. rewrite String.eqb_refl.
      destruct (getState sid m) as [state states]; simpl.
      unfold in_progress at 1. rewrite lookup_insert_eq. simpl. lia.
    + destruct (step_out (MessageUpdated info) now tag m)
        as [E | (i & st & Ei & _ & L & P & _ & E & L')].
      * rewrite E. simpl.
        destruct (negb (String.eqb (role info) "assistant")); [simpl; lia|].
        destruct (negb (is_true (summary info))
                  || negb (truthy (finish info))); [simpl; lia|].
        unfold getState, in_progress. rewrite Q.
        destruct (m !! sid) as [st|] eqn:E'; simpl.
        -- destruct (inProgress st) eqn:P; simpl.
           ++ destruct (now - lastCompaction st <? COMPACTION_COOLDOWN_MS);
                simpl; rewrite lookup_insert_eq; simpl; lia.
           ++ rewrite E', P. lia.
        -- rewrite lookup_insert_eq. simpl. lia.
      * injection Ei as <-. rewrite E. rewrite Q in *.
        unfold in_progress. rewrite L', L, P. simpl.
        rewrite String.eqb_refl. lia.
    + subst s. simpl. unfold in_progress at 1.
      rewrite lookup_delete_eq. lia.
  - rewrite in_progress_other by done.
    assert (requests_for sid (handleCompactionEvent event now tag m).2 = 0%nat)
      as ->.
    { destruct (step_out event now tag m)
        as [E | (i & st & Ei & _ & _ & _ & _ & E & _)]; rewrite E; [done|].
      subst event. simpl in N. simpl.
      destruct (String.eqb_spec (sessionID i) sid); [congruence | done]. }
    lia.
Qed.

Lemma compactions_of_cons sid event now rest :
  compactions_of sid ((event, now) :: rest)
  = (compactions_of sid [(event, now)] + compactions_of sid rest)%nat.
Proof. destruct event; simpl; lia. Qed.

(** [lastCompaction] along a run, for an entry that is kept. *)
Lemma run_monotone tag (events : list (Event * Z)) m sid st :
  m !! sid = Some st →
  (∀ k, is_Some ((run tag (take k events) m).1 !! sid)) →
  ∃ st', (run tag events m).1 !! sid = Some st'
         ∧ lastCompaction st ≤ lastCompaction st'.
Proof.
  revert m st. induction events as [|[event now] rest IH]; intros m st E K.
  - exists st. simpl. split; [done | lia].
  - destruct (K 1%nat) as [st1 E1].
    change (take 1 ((event, now) :: rest)) with [(event, now)] in E1.
    rewrite run_cons_store in E1. simpl in E1.
    pose proof (step_monotone event now tag m sid st st1 E E1) as M1.
    destruct (IH _ st1 E1) as [st' [E' M']].
    + intros k. specialize (K (S k)).
      change (take (S k) ((event, now) :: rest))
        with ((event, now) :: take k rest) in K.
      by rewrite run_cons_store in K.
    + exists st'. rewrite run_cons_store. split; [done | lia].
Qed.

Lemma marker_session sid sid' tag :
  marker sid tag = marker sid' tag → sid = sid'.
Proof. intros E. by apply (f_equal sessionId) in E. Qed.

End CompactionMore.

(** X1: events of other sessions, and events of types the handler does
    not know, never touch the entry of a session: after any run of such
    events the entry is what it was, present or absent. *)
Theorem X1_sessions_are_isolated
    (tag : string) (events : list (Compaction.Event * Z))
    (m : gmap string Compaction.CompactionSessionState) (sid : string) :
  Forall (λ e, Vocabulary.event_session e.1 ≠ Some sid) events →
  (Compaction.run tag events m).1 !! sid = m !! sid.
Proof.
  intros H. revert m. induction H as [|[event now] rest N _ IH]; intros m.
  - done.
  - rewrite run_cons_store, IH. by apply step_other.
Qed.

Lemma X1_sessions_are_isolated_witness :
  (Compaction.run "tag"
     (Compaction.compaction_at "s2" 40000
        ++ [(Compaction.SessionEnded "s3", 40001);
            (Compaction.OtherEvent "session.idle", 40002)])
     {[ "s1" := {| Compaction.lastCompaction := 7;
                   Compaction.inProgress := true |} ]}).1 !! "s1"
  = ({[ "s1" := {| Compaction.lastCompaction := 7;
                   Compaction.inProgress := true |} ]}
       : gmap string Compaction.CompactionSessionState) !! "s1".
Proof.
  apply (X1_sessions_are_isolated "tag").
  repeat constructor; simpl; discriminate.
Defined.

(** X2: over any run, the ingestion requests emitted for a session are
    at most the [session.compacted] events of that session in the run,
    plus one when a summary was already awaited at the start; from the
    empty store, at most one request per compaction. *)
Theorem X2_at_most_one_ingestion_per_compaction
    (tag : string) (events : list (Compaction.Event * Z))
    (m : gmap string Compaction.CompactionSessionState) (sid : string) :
  (Vocabulary.requests_for sid (Compaction.run tag events m).2
   ≤ Vocabulary.compactions_of sid events + Vocabulary.in_progress m sid)%nat
  ∧ (Vocabulary.requests_for sid (Compaction.run tag events ∅).2
     ≤ Vocabulary.compactions_of sid events)%nat.
Proof.
  assert (∀ m,
            (Vocabulary.requests_for sid (Compaction.run tag events m).2
             + Vocabulary.in_progress (Compaction.run tag events m).1 sid
             ≤ Vocabulary.compactions_of sid events
               + Vocabulary.in_progress m sid)%nat) as G.
  { induction events as [|[event now] rest IH]; intros m0; [simpl; lia|].
    rewrite run_cons_out, run_cons_store, requests_for_app,
      compactions_of_cons.
    pose proof (step_budget event now tag m0 sid).
    specialize (IH (Compaction.handleCompactionEvent event now tag m0).1).
    lia. }
  split.
  - specialize (G m). lia.
  - specialize (G ∅). unfold Vocabulary.in_progress at 2 in G.
    rewrite lookup_empty in G. lia.
Qed.

(** X3: between two ingestion requests of one session, with the entry
    of the session kept in between, the clock readings are at least the
    cooldown apart, whatever events and readings come in between. *)
Theorem X3_ingestions_are_a_cooldown_apart
    (tag sid : string) (m : gmap string Compaction.CompactionSessionState)
    (e1 e2 : Compaction.Event) (t1 t2 : Z)
    (between : list (Compaction.Event * Z)) :
  (Compaction.handleCompactionEvent e1 t1 tag m).2
  = [Compaction.marker sid tag] →
  (∀ k, is_Some
          ((Compaction.run tag (take k between)
              (Compaction.handleCompactionEvent e1 t1 tag m).1).1 !! sid)) →
  (Compaction.handleCompactionEvent e2 t2 tag
     (Compaction.run tag between
        (Compaction.handleCompactionEvent e1 t1 tag m).1).1).2
  = [Compaction.marker sid tag] →
  Compaction.COMPACTION_COOLDOWN_MS ≤ t2 - t1.
Proof.
  intros F1 K F2.
  destruct (step_out e1 t1 tag m)
    as [E | (i1 & s1 & _ & _ & _ & _ & _ & E1 & L1)]; [congruence|].
  rewrite E1 in F1.
  assert (Compaction.sessionID i1 = sid) as F1'
    by (apply (marker_session _ _ tag); congruence).
  rewrite F1' in L1.
  destruct (run_monotone tag between _ sid _ L1 K) as (st & L & M).
  simpl in M.
  destruct (step_out e2 t2 tag
              (Compaction.run tag between
                 (Compaction.handleCompactionEvent e1 t1 tag m).1).1)
    as [E | (i2 & s2 & _ & _ & L2 & _ & C & E2 & _)]; [congruence|].
  rewrite E2 in F2.
  assert (Compaction.sessionID i2 = sid) as F2'
    by (apply (marker_session _ _ tag); congruence).
  rewrite F2', L in L2. injection L2 as <-. lia.
Qed.

Lemma X3_ingestions_are_a_cooldown_apart_witness :
  Compaction.COMPACTION_COOLDOWN_MS ≤ 1700000040000 - 1700000000000.
Proof.
  apply (X3_ingestions_are_a_cooldown_apart "tag" "s1"
           {[ "s1" := {| Compaction.lastCompaction := 0;
                         Compaction.inProgress := true |} ]}
           (Compaction.SummaryReady "s1") (Compaction.SummaryReady "s1")
           1700000000000 1700000040000
           [(Compaction.CompactionStarted "s1", 1700000039000)]).
  - vm_compute. reflexivity.
  - intros k. do 2 (destruct k as [|k]; [vm_compute; eauto|]).
    vm_compute; eauto.
  - vm_compute. reflexivity.
Defined.

(** X4: every ingestion request of a run comes from a message event of
    the run with role "assistant", and is the marker of that message's
    session: one assistant message naming the session, the container
    tag the handler was given, and the type "episode". *)
Theorem X4_requests_come_from_summaries
    (tag : string) (events : list (Compaction.Event * Z))
    (m : gmap string Compaction.CompactionSessionState)
    (r : Compaction.IngestRequest) :
  r ∈ (Compaction.run tag events m).2 →
  ∃ info now,
    (Compaction.MessageUpdated info, now) ∈ events
    ∧ Compaction.role info = "assistant"
    ∧ r = Compaction.marker (Compaction.sessionID info) tag
    ∧ Compaction.containerTag r = tag
    ∧ Compaction.memoryType r = "episode".
Proof.
  revert m. induction events as [|[event now] rest IH]; intros m H.
  - simpl in H. by apply elem_of_nil in H.
  - rewrite run_cons_out in H. apply elem_of_app in H as [H | H].
    + destruct (step_out event now tag m)
        as [E | (i & st & -> & R & _ & _ & _ & E & _)];
        rewrite E in H; [by apply elem_of_nil in H|].
      apply list_elem_of_singleton in H as ->.
      exists i, now. repeat split; [apply list_elem_of_here | done].
    + destruct (IH _ H) as (i & n & I & R & E).
      exists i, n. split; [by apply list_elem_of_further | done].
Qed.

Lemma X4_requests_come_from_summaries_witness :
  ∃ info now,
    (Compaction.MessageUpdated info, now)
      ∈ Compaction.compaction_at "s1" 1700000000000
    ∧ Compaction.role info = "assistant"
    ∧ Compaction.marker "s1" "tag"
      = Compaction.marker (Compaction.sessionID info) "tag"
    ∧ Compaction.containerTag (Compaction.marker "s1" "tag") = "tag"
    ∧ Compaction.memoryType (Compaction.marker "s1" "tag") = "episode".
Proof.
  apply (X4_requests_come_from_summaries "tag"
           (Compaction.compaction_at "s1" 1700000000000) ∅).
  vm_compute. apply list_elem_of_here.
Defined.

(** ** Privacy filter: markers without partner, length, blank text *)

Section PrivacyMore.
Import Privacy.

Lemma occurs_nil (p : string) : p ≠ "" → occurs p "" = false.
Proof. by destruct p. Qed.

Lemma occurs_drop (p s : string) (n : nat) :
  occurs p s = false → occurs p (drop n s) = false.
Proof.
  revert s. induction n as [|n IH]; intros s H; [by destruct s|].
  destruct s as [|c s]; [done|]. simpl. apply IH. by apply occurs_tail in H.
Qed.

Lemma no_close_no_span (s : string) :
  occurs close_tag s = false → has_span s = false.
Proof.
  induction s as [|c s IH]; intros H; [done|].
  change (has_span (String c s))
    with ((starts_with open_tag (String c s)
           && occurs close_tag (drop 9 (String c s))) || has_span s).
  rewrite (occurs_drop _ _ 9 H), andb_false_r.
  rewrite IH; [done | by apply occurs_tail in H].
Qed.

Lemma no_open_no_span (s : string) :
  occurs open_tag s = false → has_span s = false.
Proof.
  induction s as [|c s IH]; intros H; [done|].
  change (has_span (String c s))
    with ((starts_with open_tag (String c s)
           && occurs close_tag (drop 9 (String c s))) || has_span s).
  rewrite (occurs_head _ _ H). rewrite IH; [done | by apply occurs_tail in H].
Qed.

Lemma replace_length (skip : nat) (s : string) :
  (String.length (replace_private skip s) ≤ String.length s)%nat.
Proof.
  revert skip. induction s as [|c s IH]; intros skip; [done|].
  destruct skip as [|n].
  - rewrite replace_unfold.
    destruct (match_here (String c s)) as [[|n]|]; simpl;
      try (specialize (IH 0%nat); lia).
    specialize (IH n). lia.
  - simpl. specialize (IH n). lia.
Qed.

Lemma trimStart_length (s : string) :
  (String.length (trimStart s) ≤ String.length s)%nat.
Proof.
  induction s as [|c s IH]; [done|]. simpl.
  destruct (is_space c); simpl; lia.
Qed.

Lemma trimEnd_length (s : string) :
  (String.length (trimEnd s) ≤ String.length s)%nat.
Proof.
  induction s as [|c s IH]; [done|]. simpl.
  destruct (trimEnd s); [destruct (is_space c)|]; simpl in *; lia.
Qed.

Lemma all_space_no_open (s : string) :
  all_space s = true → occurs open_tag s = false.
Proof.
  induction s as [|c s IH]; [done|]. intros H.
  change (is_space c && all_space s = true) in H.
  apply andb_prop in H as [C A].
  change (occurs open_tag (String c s))
    with ((Ascii.eqb "<" c && starts_with "private>" s)
          || occurs open_tag s).
  rewrite (IH A), orb_false_r.
  destruct (Ascii.eqb_spec "<" c) as [<-|N]; [discriminate C | done].
Qed.

Lemma all_space_trimStart (s : string) :
  all_space s = true → trimStart s = "".
Proof.
  induction s as [|c s IH]; [done|]. simpl. intros H.
  apply andb_prop in H as [C A]. rewrite C. by apply IH.
Qed.

End PrivacyMore.

(** X5: a marker without its partner removes nothing: when the text
    holds no close tag (so also for an open tag that is never closed) or
    no open tag, the result is the text, trimmed. *)
Theorem X5_unpaired_markers_are_kept (text : string) :
  Privacy.occurs Privacy.close_tag text = false
  ∨ Privacy.occurs Privacy.open_tag text = false →
  Privacy.stripPrivateContent (Some text) = Privacy.trim text.
Proof.
  intros H. rewrite strip_some. f_equal. apply replace_no_span.
  destruct H; [by apply no_close_no_span | by apply no_open_no_span].
Qed.

Lemma X5_unpaired_markers_are_kept_witness :
  Privacy.stripPrivateContent (Some "note <private>secret ")
  = Privacy.trim "note <private>secret ".
Proof.
  apply X5_unpaired_markers_are_kept. left. vm_compute. reflexivity.
Defined.

(** X6: the result is never longer than the text: the filter only
    removes code units. *)
Theorem X6_strip_never_grows (text : string) :
  (String.length (Privacy.stripPrivateContent (Some text))
   ≤ String.length text)%nat.
Proof.
  rewrite strip_some. unfold Privacy.trim.
  pose proof (trimEnd_length
                (Privacy.trimStart (Privacy.replace_private 0 text))).
  pose proof (trimStart_length (Privacy.replace_private 0 text)).
  pose proof (replace_length 0 text). lia.
Qed.

(** X7: a text of white space only, with no tag in it at all, strips to
    the empty string and so counts as fully private. *)
Theorem X7_blank_text_is_fully_private (text : string) :
  Privacy.all_space text = true →
  Privacy.stripPrivateContent (Some text) = ""
  ∧ Privacy.isFullyPrivate (Some text) = true.
Proof.
  intros H.
  assert (Privacy.stripPrivateContent (Some text) = "") as E.
  { rewrite strip_some, replace_no_span
      by (by apply no_open_no_span, all_space_no_open).
    unfold Privacy.trim. by rewrite all_space_trimStart. }
  split; [done|]. unfold Privacy.isFullyPrivate. by rewrite E.
Qed.

Lemma X7_blank_text_is_fully_private_witness :
  Privacy.stripPrivateContent (Some ("  " +:+ Context.nl)) = ""
  ∧ Privacy.isFullyPrivate (Some ("  " +:+ Context.nl)) = true.
Proof.
  apply X7_blank_text_is_fully_private. vm_compute. reflexivity.
Defined.

(** ** Container tags: the hash and the shape of the tags *)

Section TagsMore.
Import Tags Vocabulary.

Lemma sixteen_cases (d : Z) :
  0 ≤ d < 16 →
  d = 0 ∨ d = 1 ∨ d = 2 ∨ d = 3 ∨ d = 4 ∨ d = 5 ∨ d = 6 ∨ d = 7
  ∨ d = 8 ∨ d = 9 ∨ d = 10 ∨ d = 11 ∨ d = 12 ∨ d = 13 ∨ d = 14 ∨ d = 15.
Proof. lia. Qed.

Lemma digit_roundtrip (d : Z) :
  0 ≤ d < 16 → digit_value (hex_digit d) = d.
Proof.
  intros H. apply sixteen_cases in H.
  repeat (destruct H as [-> | H]; [reflexivity|]). by subst.
Qed.

Lemma hex_digit_slug (d : Z) :
  0 ≤ d < 16 → is_slug_char (hex_digit d) = true.
Proof.
  intros H. apply sixteen_cases in H.
  repeat (destruct H as [-> | H]; [reflexivity|]). by subst.
Qed.

Lemma hex_value_cons (c : ascii) (s : string) :
  hex_value (String c s)
  = digit_value c * 16 ^ Z.of_nat (String.length s) + hex_value s.
Proof. reflexivity. Qed.

Lemma hex_go_value (k : nat) (n : Z) (acc : string) :
  0 ≤ n < 16 ^ Z.of_nat k →
  hex_value (hex_go k n acc)
  = n * 16 ^ Z.of_nat (String.length acc) + hex_value acc.
Proof.
  revert n acc. induction k as [|k IH]; intros n acc H.
  - simpl in *. assert (n = 0) as -> by lia. lia.
  - rewrite Nat2Z.inj_succ, Z.pow_succ_r in H by lia.
    cbn [hex_go].
    pose proof (Z.div_mod n 16 ltac:(lia)) as D.
    pose proof (Z.mod_pos_bound n 16 ltac:(lia)) as M.
    assert (hex_value (String (hex_digit (n mod 16)) acc)
            = (n mod 16) * 16 ^ Z.of_nat (String.length acc) + hex_value acc)
      as V by (rewrite hex_value_cons, digit_roundtrip; done).
    destruct (Z.eqb_spec (n / 16) 0) as [Q|Q].
    + rewrite V. replace (n mod 16) with n by lia. done.
    + rewrite IH.
      * rewrite V. cbn [String.length].
        rewrite Nat2Z.inj_succ, Z.pow_succ_r by lia.
        set (P := 16 ^ Z.of_nat (String.length acc)). nia.
      * split; [apply Z.div_pos; lia|].
        apply Z.div_lt_upper_bound; lia.
Qed.

Lemma hex_go_length (k : nat) (n : Z) (acc : string) :
  (String.length (hex_go k n acc) ≤ k + String.length acc)%nat.
Proof.
  revert n acc. induction k as [|k IH]; intros n acc; [simpl; lia|].
  cbn [hex_go]. destruct (n / 16 =? 0); [simpl; lia|].
  etransitivity; [apply IH|]. simpl. lia.
Qed.

Lemma hex_go_chars (k : nat) (n : Z) (acc : string) :
  all_chars is_slug_char acc = true →
  all_chars is_slug_char (hex_go k n acc) = true.
Proof.
  revert n acc. induction k as [|k IH]; intros n acc H; [done|].
  cbn [hex_go].
  assert (all_chars is_slug_char (String (hex_digit (n mod 16)) acc) = true)
    as A.
  { simpl. rewrite H, andb_true_r. apply hex_digit_slug.
    apply Z.mod_pos_bound. lia. }
  destruct (n / 16 =? 0); [done | by apply IH].
Qed.

Lemma hex_digit_hex (d : Z) :
  0 ≤ d < 16 → is_hex_digit (hex_digit d) = true.
Proof.
  intros H. apply sixteen_cases in H.
  repeat (destruct H as [-> | H]; [reflexivity|]). by subst.
Qed.

Lemma hex_go_hex (k : nat) (n : Z) (acc : string) :
  all_chars is_hex_digit acc = true →
  all_chars is_hex_digit (hex_go k n acc) = true.
Proof.
  revert n acc. induction k as [|k IH]; intros n acc H; [done|].
  cbn [hex_go].
  assert (all_chars is_hex_digit (String (hex_digit (n mod 16)) acc) = true)
    as A.
  { simpl. rewrite H, andb_true_r. apply hex_digit_hex.
    apply Z.mod_pos_bound. lia. }
  destruct (n / 16 =? 0); [done | by apply IH].
Qed.

Lemma toUint32_range (x : Z) : 0 ≤ toUint32 x < 16 ^ Z.of_nat 8.
Proof. unfold toUint32. apply Z.mod_pos_bound. lia. Qed.

Lemma simpleHash_value (input : string) :
  hex_value (simpleHash input) = toUint32 (hash_loop 5381 input).
Proof.
  unfold simpleHash, toString16. rewrite hex_go_value by apply toUint32_range.
  simpl. lia.
Qed.

Lemma simpleHash_length (input : string) :
  (String.length (simpleHash input) ≤ 8)%nat.
Proof.
  unfold simpleHash, toString16.
  pose proof (hex_go_length 8 (toUint32 (hash_loop 5381 input)) "").
  simpl in *. lia.
Qed.

Lemma repeat0_length (k : nat) : String.length (repeat0 k) = k.
Proof. induction k as [|k IH]; simpl; congruence. Qed.

Lemma repeat0_value (k : nat) (s : string) :
  hex_value (repeat0 k +:+ s) = hex_value s.
Proof.
  induction k as [|k IH]; [done|].
  cbn [repeat0]. rewrite sapp_cons, hex_value_cons, IH.
  change (digit_value "0") with 0. lia.
Qed.

Lemma drop_zero (s : string) : Privacy.drop 0 s = s.
Proof. by destruct s. Qed.

Lemma shortHash_padded (input : string) :
  shortHash input = padStart8 (simpleHash input)
  ∧ String.length (shortHash input) = 8%nat.
Proof.
  pose proof (simpleHash_length input) as L.
  assert (String.length (padStart8 (simpleHash input)) = 8%nat) as P.
  { unfold padStart8. rewrite slength_app, repeat0_length. lia. }
  unfold shortHash, slice_last8. rewrite P.
  change (8 - 8)%nat with 0%nat. by rewrite drop_zero.
Qed.

Lemma all_chars_app (p : ascii → bool) (a b : string) :
  all_chars p (a +:+ b) = all_chars p a && all_chars p b.
Proof.
  induction a as [|c a IH]; [done|].
  rewrite sapp_cons. simpl. by rewrite IH, andb_assoc.
Qed.

Lemma repeat0_chars (k : nat) : all_chars is_slug_char (repeat0 k) = true.
Proof. induction k as [|k IH]; [done | exact IH]. Qed.

Lemma shortHash_chars (input : string) :
  all_chars is_slug_char (shortHash input) = true.
Proof.
  destruct (shortHash_padded input) as [-> _]. unfold padStart8.
  rewrite all_chars_app, repeat0_chars. by apply hex_go_chars.
Qed.

Lemma repeat0_hex (k : nat) : all_chars is_hex_digit (repeat0 k) = true.
Proof. induction k as [|k IH]; [done | exact IH]. Qed.

Lemma shortHash_hex (input : string) :
  all_chars is_hex_digit (shortHash input) = true.
Proof.
  destruct (shortHash_padded input) as [-> _]. unfold padStart8.
  rewrite all_chars_app, repeat0_hex. by apply hex_go_hex.
Qed.

Lemma all_chars_weaken (p q : ascii → bool) (s : string) :
  (∀ c, p c = true → q c = true) →
  all_chars p s = true → all_chars q s = true.
Proof.
  intros W. induction s as [|c s IH]; [done|]. simpl. intros H.
  apply andb_prop in H as [C A]. by rewrite (W c C), IH.
Qed.

Lemma dash_runs_chars (b : bool) (s : string) :
  all_chars is_tag_char (dash_runs b s) = true.
Proof.
  revert b. induction s as [|c s IH]; intros b; [done|]. simpl.
  destruct (is_slug_char c) eqn:C.
  - simpl. unfold is_tag_char at 1. by rewrite C, IH.
  - destruct b; [apply IH|]. simpl. by rewrite IH.
Qed.

Lemma drop_leading_chars (p q : ascii → bool) (s : string) :
  all_chars q s = true → all_chars q (drop_leading p s) = true.
Proof.
  induction s as [|c s IH]; [done|]. simpl. intros H.
  destruct (p c); [|done]. apply andb_prop in H as [_ A]. by apply IH.
Qed.

Lemma drop_trailing_chars (p q : ascii → bool) (s : string) :
  all_chars q s = true → all_chars q (drop_trailing p s) = true.
Proof.
  induction s as [|c s IH]; [done|]. simpl. intros H.
  apply andb_prop in H as [C A]. specialize (IH A).
  destruct (drop_trailing p s) as [|d r].
  - destruct (p c); [done|]. simpl. by rewrite C.
  - change (q c && all_chars q (String d r) = true). by rewrite C, IH.
Qed.

Lemma take_chars (q : ascii → bool) (n : nat) (s : string) :
  all_chars q s = true → all_chars q (take n s) = true.
Proof.
  revert s. induction n as [|n IH]; intros s H; [by destruct s|].
  destruct s as [|c s]; [done|]. simpl in *.
  apply andb_prop in H as [C A]. by rewrite C, IH.
Qed.

Lemma take_length (n : nat) (s : string) :
  (String.length (take n s) ≤ n)%nat.
Proof.
  revert s. induction n as [|n IH]; intros s; [by destruct s|].
  destruct s as [|c s]; simpl; [lia|]. specialize (IH s). lia.
Qed.

Lemma slugify_shape (value : string) :
  all_chars is_tag_char (slugify value) = true
  ∧ (String.length (slugify value) ≤ 80)%nat.
Proof.
  unfold slugify. split; [|apply take_length].
  apply take_chars, drop_trailing_chars, drop_leading_chars, dash_runs_chars.
Qed.

Lemma or_else_nonempty (a b : string) : b ≠ "" → or_else a b ≠ "".
Proof. by destruct a. Qed.

(** Bitwise exclusive or stays within signed 32 bits. *)
Lemma lxor_nonneg_bound (a b : Z) :
  0 ≤ a < 2 ^ 31 → 0 ≤ b < 2 ^ 31 → 0 ≤ Z.lxor a b < 2 ^ 31.
Proof.
  intros A B.
  assert (0 ≤ Z.lxor a b) as N by (apply Z.lxor_nonneg; lia).
  split; [done|].
  destruct (Z.eq_dec (Z.lxor a b) 0) as [->|Q]; [lia|].
  apply Z.log2_lt_pow2; [lia|].
  pose proof (Z.log2_lxor a b ltac:(lia) ltac:(lia)) as L.
  assert (Z.log2 a < 31) as La.
  { destruct (Z.eq_dec a 0) as [->|]; [simpl; lia|].
    apply Z.log2_lt_pow2; lia. }
  assert (Z.log2 b < 31) as Lb.
  { destruct (Z.eq_dec b 0) as [->|]; [simpl; lia|].
    apply Z.log2_lt_pow2; lia. }
  lia.
Qed.

Lemma lxor_int32 (a b : Z) :
  - 2 ^ 31 ≤ a < 2 ^ 31 → 0 ≤ b < 2 ^ 31 →
  - 2 ^ 31 ≤ Z.lxor a b < 2 ^ 31.
Proof.
  intros A B. destruct (Z_lt_le_dec a 0) as [Neg|Pos].
  - pose proof (lxor_nonneg_bound (Z.lnot a) b) as H.
    rewrite <- Z.lnot_lxor_l in H. unfold Z.lnot in H.
    rewrite <- !Z.sub_1_r in H. lia.
  - pose proof (lxor_nonneg_bound a b). lia.
Qed.

Lemma toInt32_range (x : Z) : - 2 ^ 31 ≤ toInt32 x < 2 ^ 31.
Proof.
  unfold toInt32.
  pose proof (Z.mod_pos_bound (x + 2 ^ 31) (2 ^ 32) ltac:(lia)). lia.
Qed.

Lemma charCode_range (c : ascii) : 0 ≤ charCode c < 2 ^ 31.
Proof.
  unfold charCode. pose proof (nat_ascii_bounded c). lia.
Qed.

Lemma hash_loop_range (h : Z) (input : string) :
  - 2 ^ 31 ≤ h < 2 ^ 31 → - 2 ^ 31 ≤ hash_loop h input < 2 ^ 31.
Proof.
  revert h. induction input as [|c s IH]; intros h H; [done|].
  simpl. apply IH, lxor_int32; [apply toInt32_range | apply charCode_range].
Qed.

Lemma hash_loop_app (h : Z) (a b : string) :
  hash_loop h (a +:+ b) = hash_loop (hash_loop h a) b.
Proof.
  revert h. induction a as [|c a IH]; intros h; [done|].
  rewrite sapp_cons. simpl. apply IH.
Qed.

End TagsMore.

(** X8: the hexadecimal text of a hash is the hash: reading
    [simpleHash(input)] back as a hexadecimal number gives the unsigned
    32-bit value of the loop, so two inputs get the same text only when
    their 32-bit hashes are the same; and [toString16] is read back
    exactly on every unsigned 32-bit number. *)
Theorem X8_simpleHash_is_the_hash_in_hex :
  (∀ n : Z, 0 ≤ n < 2 ^ 32 →
            Vocabulary.hex_value (Tags.toString16 n) = n)
  ∧ (∀ input : string,
       Vocabulary.hex_value (Tags.simpleHash input)
       = Tags.toUint32 (Tags.hash_loop 5381 input))
  ∧ (∀ a b : string,
       Tags.simpleHash a = Tags.simpleHash b →
       Tags.toUint32 (Tags.hash_loop 5381 a)
       = Tags.toUint32 (Tags.hash_loop 5381 b)).
Proof.
  split; [|split].
  - intros n H. unfold Tags.toString16.
    rewrite hex_go_value by (change (16 ^ Z.of_nat 8) with (2 ^ 32); lia).
    simpl. lia.
  - apply simpleHash_value.
  - intros a b E. rewrite <- !simpleHash_value. by rewrite E.
Qed.

Lemma X8_simpleHash_is_the_hash_in_hex_witness :
  Vocabulary.hex_value (Tags.toString16 4294967295) = 4294967295.
Proof.
  apply (proj1 X8_simpleHash_is_the_hash_in_hex). lia.
Defined.

(** X9: [shortHash] is always eight hexadecimal digits and cuts nothing
    off: its length is eight, each of its characters is one of
    [0-9a-f], it is [simpleHash] padded with zeros on the left, and read
    back as a number it is still the unsigned 32-bit hash; the text of
    [simpleHash] is made of the same sixteen digits. *)
Theorem X9_shortHash_is_eight_digits (input : string) :
  String.length (Tags.shortHash input) = 8%nat
  ∧ Vocabulary.all_chars Vocabulary.is_hex_digit (Tags.shortHash input)
    = true
  ∧ Tags.shortHash input = Tags.padStart8 (Tags.simpleHash input)
  ∧ Vocabulary.hex_value (Tags.shortHash input)
    = Tags.toUint32 (Tags.hash_loop 5381 input)
  ∧ Vocabulary.all_chars Vocabulary.is_hex_digit (Tags.simpleHash input)
    = true.
Proof.
  destruct (shortHash_padded input) as [E L].
  split; [done|]. split; [apply shortHash_hex|]. split; [done|].
  split; [|by apply hex_go_hex].
  rewrite E. unfold Tags.padStart8.
  rewrite repeat0_value. apply simpleHash_value.
Qed.

(** X10: whatever the directory and whatever [basename] returns, the
    project tag is made of lower-case letters, digits and dashes only,
    is at most 93 code units long, and starts with "ocp-"; the user tag
    is made of the same characters. *)
Theorem X10_tags_are_slugs
    (username : string) (basename : string → string) (directory : string) :
  Vocabulary.all_chars Vocabulary.is_tag_char
    (Tags.projectTag basename directory) = true
  ∧ (String.length (Tags.projectTag basename directory) ≤ 93)%nat
  ∧ Privacy.starts_with "ocp-" (Tags.projectTag basename directory) = true
  ∧ Vocabulary.all_chars Vocabulary.is_tag_char (Tags.userTag username)
    = true.
Proof.
  unfold Tags.projectTag, Tags.userTag.
  set (name := basename _).
  destruct (slugify_shape name) as [SC SL].
  assert (slug_ok :
            Vocabulary.all_chars Vocabulary.is_tag_char
              (Tags.or_else (Tags.slugify name) "project") = true
            ∧ (String.length (Tags.or_else (Tags.slugify name) "project")
               ≤ 80)%nat).
  { destruct (Tags.slugify name) eqn:E; simpl; [split; [done | lia]|].
    split; [exact SC | exact SL]. }
  destruct slug_ok as [OC OL].
  destruct (shortHash_padded (Tags.or_else directory ".")) as [_ HL].
  pose proof (all_chars_weaken Tags.is_slug_char Vocabulary.is_tag_char
                (Tags.shortHash (Tags.or_else directory "."))
                ltac:(intros c C; unfold Vocabulary.is_tag_char;
                      by rewrite C)
                (shortHash_chars _)) as HC.
  split; [|split; [|split]].
  - rewrite !all_chars_app, OC, HC. reflexivity.
  - rewrite !slength_app, HL. simpl. lia.
  - apply starts_with_app.
  - rewrite all_chars_app. apply andb_true_intro. split; [done|].
    apply (all_chars_weaken Tags.is_slug_char).
    + intros c C. unfold Vocabulary.is_tag_char. by rewrite C.
    + by apply hex_go_chars.
Qed.

(** X11: a container tag is never the empty string: for every host,
    directory and overrides, both tags that [getTagsWithOverrides]
    returns are non-empty. *)
Theorem X11_tags_are_never_empty
    (username : string) (basename : string → string)
    (directory : string) (overrides : option Tags.TagOverrides) :
  Tags.user (Tags.getTagsWithOverrides username basename directory overrides)
  ≠ ""
  ∧ Tags.project
      (Tags.getTagsWithOverrides username basename directory overrides)
    ≠ "".
Proof.
  unfold Tags.getTagsWithOverrides, Tags.getTags, Tags.userTag,
    Tags.projectTag.
  destruct overrides as [[[[|c u]|] [[|d p]|]]|]; simpl; split; discriminate.
Qed.

(** X12: the running value of the hash is a signed 32-bit integer after
    every character, so the product [h * 33] the next step starts from
    stays inside the range in which a double is exact; the hash of a text
    is the loop continued from the hash of any of its prefixes. *)
Theorem X12_hash_stays_in_int32 (front rest : string) :
  - 2 ^ 31 ≤ Tags.hash_loop 5381 front < 2 ^ 31
  ∧ - 2 ^ 53 < Tags.hash_loop 5381 front * 33 < 2 ^ 53
  ∧ Tags.hash_loop 5381 (front +:+ rest)
    = Tags.hash_loop (Tags.hash_loop 5381 front) rest.
Proof.
  pose proof (hash_loop_range 5381 front ltac:(lia)) as R.
  split; [done|]. split; [lia | apply hash_loop_app].
Qed.

(** ** Configuration: an empty key, and the files that are read *)

Section ConfigMore.
Import Config.

Variable join : list string → string.
Variable homedir : string.
Variable stripJsoncComments : string → string.
Variable JSON_parse : string → option Json.
Variable env : Env.

Lemma read_agree (fs1 fs2 : string → FileState) (path : string) :
  fs1 path = fs2 path →
  readJsoncConfigFile stripJsoncComments JSON_parse fs1 path
  = readJsoncConfigFile stripJsoncComments JSON_parse fs2 path.
Proof. intros E. unfold readJsoncConfigFile, try_read. by rewrite E. Qed.

Lemma read_project_agree (fs1 fs2 : string → FileState)
    (directory : option string) :
  (∀ dir, directory = Some dir →
          fs1 (join [dir; ".momo.jsonc"]) = fs2 (join [dir; ".momo.jsonc"])
          ∧ (fs1 (join [dir; ".momo.jsonc"]) = Absent →
             fs1 (join [dir; "momo.jsonc"]) = fs2 (join [dir; "momo.jsonc"]))) →
  readProjectConfigFile join stripJsoncComments JSON_parse fs1 directory
  = readProjectConfigFile join stripJsoncComments JSON_parse fs2 directory.
Proof.
  intros H. unfold readProjectConfigFile.
  destruct directory as [dir|]; [|done].
  destruct (negb (truthy (Some dir))); [done|].
  destruct (H dir eq_refl) as [D P]. change (default "" (Some dir)) with dir.
  unfold existsSync. rewrite <- D.
  destruct (fs1 (join [dir; ".momo.jsonc"])) eqn:E;
    try (apply read_agree; congruence).
  rewrite <- (P eq_refl).
  destruct (fs1 (join [dir; "momo.jsonc"])) eqn:E';
    try done; apply read_agree; rewrite <- (P eq_refl); congruence.
Qed.

(** With the key variable set, the key is that of the variable whenever
    [loadConfig] returns. *)
Lemma loadConfig_key_of_variable (fs : string → FileState)
    (directory : option string) (key : string) (config : MomoConfig) :
  MOMO_API_KEY env = Some key →
  loadConfig join homedir stripJsoncComments JSON_parse env fs directory
  = Ok config →
  apiKey config = Some (JString key).
Proof.
  intros E. unfold loadConfig. rewrite E.
  cbn [env_value nullish is_nullish bind].
  repeat match goal with
         | |- bind ?x _ = _ → _ => destruct x; cbn [bind]; [|discriminate]
         end.
  by intros [= <-].
Qed.

End ConfigMore.

(** X13: an API key variable that is set to the empty string is used as
    it is and hides the keys of both files: whenever [loadConfig]
    returns a configuration its key is the empty string, so the plugin
    never counts as configured; and it counts as not configured when
    neither file holds the JSON value [null], the one case in which
    [loadConfig] fails. *)
Theorem X13_empty_key_variable_hides_the_files
    (join : list string → string) (homedir : string)
    (stripJsoncComments : string → string)
    (JSON_parse : string → option Config.Json)
    (above_zero : Config.Json → bool)
    (env : Config.Env) (fs : string → Config.FileState)
    (directory : option string) :
  Config.MOMO_API_KEY env = Some "" →
  (∀ config : Config.MomoConfig,
     Config.loadConfig join homedir stripJsoncComments JSON_parse env fs
       directory = Config.Ok config →
     Config.apiKey config = Some (Config.JString ""))
  ∧ Config.isConfigured join homedir stripJsoncComments JSON_parse
      above_zero env fs directory ≠ Config.Ok true
  ∧ (Config.project_source join stripJsoncComments JSON_parse fs directory
     ≠ Config.JNull →
     Config.global_source join homedir stripJsoncComments JSON_parse env fs
     ≠ Config.JNull →
     Config.isConfigured join homedir stripJsoncComments JSON_parse
       above_zero env fs directory = Config.Ok false).
Proof.
  intros E.
  pose proof (loadConfig_key_of_variable join homedir stripJsoncComments
                JSON_parse env fs directory "") as K.
  split; [intros config L; by apply K|]. split.
  - unfold Config.isConfigured.
    destruct (Config.loadConfig _ _ _ _ _ _ _) as [config|]; [|done].
    cbn [Config.bind]. by rewrite (K config E eq_refl).
  - intros P G. unfold Config.isConfigured.
    destruct (loadConfig_resolved join homedir stripJsoncComments JSON_parse
                env fs directory P G) as (config & L & _).
    rewrite L. cbn [Config.bind]. by rewrite (K config E L).
Qed.

Lemma X13_empty_key_variable_hides_the_files_witness :
  Config.isConfigured Sample.join Sample.homedir Sample.stripJsoncComments
    Sample.JSON_parse (λ _, false)
    {| Config.MOMO_API_KEY := Some "";
       Config.MOMO_BASE_URL := None;
       Config.MOMO_CONTAINER_TAG_USER := None;
       Config.MOMO_CONTAINER_TAG_PROJECT := None;
       Config.XDG_CONFIG_HOME := None |}
    Sample.fs (Some "/work/app") = Config.Ok false.
Proof.
  apply (proj2 (proj2 (X13_empty_key_variable_hides_the_files Sample.join
                         Sample.homedir Sample.stripJsoncComments
                         Sample.JSON_parse (λ _, false)
                         {| Config.MOMO_API_KEY := Some "";
                            Config.MOMO_BASE_URL := None;
                            Config.MOMO_CONTAINER_TAG_USER := None;
                            Config.MOMO_CONTAINER_TAG_PROJECT := None;
                            Config.XDG_CONFIG_HOME := None |}
                         Sample.fs (Some "/work/app") eq_refl))).
  - vm_compute. discriminate.
  - vm_compute. discriminate.
Defined.

(** X14: [loadConfig] reads at most three files: two file systems that
    hold the same at the global path and at the dotted project path, and
    the same at the plain project path in case the dotted one is absent,
    give the same configuration.  So a dotted file that is there, even
    one that does not parse, hides the plain one. *)
Theorem X14_only_the_config_files_are_read
    (join : list string → string) (homedir : string)
    (stripJsoncComments : string → string)
    (JSON_parse : string → option Config.Json)
    (env : Config.Env) (fs1 fs2 : string → Config.FileState)
    (directory : option string) :
  fs1 (join [Config.getConfigDir join homedir env; "momo.jsonc"])
  = fs2 (join [Config.getConfigDir join homedir env; "momo.jsonc"]) →
  (∀ dir, directory = Some dir →
     fs1 (join [dir; ".momo.jsonc"]) = fs2 (join [dir; ".momo.jsonc"])
     ∧ (fs1 (join [dir; ".momo.jsonc"]) = Config.Absent →
        fs1 (join [dir; "momo.jsonc"]) = fs2 (join [dir; "momo.jsonc"]))) →
  Config.loadConfig join homedir stripJsoncComments JSON_parse env fs1
    directory
  = Config.loadConfig join homedir stripJsoncComments JSON_parse env fs2
      directory.
Proof.
  intros G P. unfold Config.loadConfig, Config.readConfigFile.
  rewrite (read_agree stripJsoncComments JSON_parse fs1 fs2 _ G).
  by rewrite (read_project_agree join stripJsoncComments JSON_parse
                fs1 fs2 directory P).
Qed.

Lemma X14_only_the_config_files_are_read_witness :
  Config.loadConfig Sample.join Sample.homedir Sample.stripJsoncComments
    Sample.JSON_parse Sample.env Sample.fs (Some "/work/app")
  = Config.loadConfig Sample.join Sample.homedir Sample.stripJsoncComments
      Sample.JSON_parse Sample.env
      (λ path, if String.eqb path "/work/app/momo.jsonc"
               then Config.Content "global file" else Sample.fs path)
      (Some "/work/app").
Proof.
  apply X14_only_the_config_files_are_read.
  - vm_compute. reflexivity.
  - intros dir [= <-]. split; [vm_compute; reflexivity|].
    vm_compute. discriminate.
Defined.

(** ** The configure command *)

Section CliMore.
Import Config Cli.

Lemma prior_of_object (existing : Json) (key : string) :
  existing ≠ JNull →
  prior existing key
  = Ok (match field existing key with
        | Some (JString s) => Some s
        | _ => None
        end).
Proof. by destruct existing. Qed.

Lemma or_prior_settled (a b : option string) (d : string) :
  or_prior a (Some (default d (or_prior a b))) = Some (default d (or_prior a b)).
Proof. by destruct a. Qed.

End CliMore.

(** X15: [writeMomoConfig] settles unless the earlier file holds the
    JSON value [null]: from any other earlier file it computes the four
    values, all strings; the values written from a file that holds the
    values of an earlier run with the same options are the same values,
    a run without options on top of them changes nothing, and container
    tags that the earlier file holds as strings are kept as they are.
    On an earlier file that holds [null] it fails with a [TypeError] and
    writes nothing. *)
Theorem X15_writeMomoConfig_settles
    (options : Cli.Options) (existing : Config.Json) :
  (existing ≠ Config.JNull →
   ∃ written : Cli.Written,
     Cli.writeMomoConfig_config options existing = Config.Ok written
     ∧ Cli.writeMomoConfig_config options (Cli.as_file written)
       = Config.Ok written
     ∧ Cli.writeMomoConfig_config
         {| Cli.opt_baseUrl := None; Cli.opt_apiKey := None |}
         (Cli.as_file written)
       = Config.Ok written
     ∧ (∀ s, Config.field existing "containerTagUser"
             = Some (Config.JString s) →
             Cli.w_containerTagUser written = s)
     ∧ (∀ s, Config.field existing "containerTagProject"
             = Some (Config.JString s) →
             Cli.w_containerTagProject written = s))
  ∧ Cli.writeMomoConfig_config options Config.JNull = Config.TypeError.
Proof.
  split; [|done]. intros N. unfold Cli.writeMomoConfig_config.
  rewrite !prior_of_object by done. cbn [Config.bind].
  eexists. split; [reflexivity|].
  cbn [Cli.w_baseUrl Cli.w_apiKey Cli.w_containerTagUser
       Cli.w_containerTagProject].
  split; [|split; [|split]].
  - cbn. by rewrite !or_prior_settled.
  - reflexivity.
  - intros s E. by rewrite E.
  - intros s E. by rewrite E.
Qed.

Lemma X15_writeMomoConfig_settles_witness :
  ∃ written : Cli.Written,
    Cli.writeMomoConfig_config
      {| Cli.opt_baseUrl := None; Cli.opt_apiKey := Some "updated-key" |}
      (Config.JObject
         [("apiKey", Config.JString "first-key");
          ("baseUrl", Config.JString "http://first:1111");
          ("containerTagUser", Config.JString "user-tag");
          ("containerTagProject", Config.JNumber "7")])
    = Config.Ok written
    ∧ Cli.w_apiKey written = "updated-key"
    ∧ Cli.w_baseUrl written = "http://first:1111"
    ∧ Cli.w_containerTagUser written = "user-tag"
    ∧ Cli.w_containerTagProject written = "".
Proof.
  destruct (proj1 (X15_writeMomoConfig_settles
                     {| Cli.opt_baseUrl := None;
                        Cli.opt_apiKey := Some "updated-key" |}
                     (Config.JObject
                        [("apiKey", Config.JString "first-key");
                         ("baseUrl", Config.JString "http://first:1111");
                         ("containerTagUser", Config.JString "user-tag");
                         ("containerTagProject", Config.JNumber "7")]))
              ltac:(discriminate)) as (written & E & _).
  exists written. split; [exact E|].
  vm_compute in E. injection E as <-. by repeat split.
Defined.

(** ** The plugin: previews and the [add] mode *)

Section PluginMore.
Import Plugin.

Lemma take_all (n : nat) (s : string) :
  (n ≤ String.length s)%nat → String.length (Tags.take n s) = n.
Proof.
  revert s. induction n as [|n IH]; intros s H; [by destruct s|].
  destruct s as [|c s]; simpl in *; [lia|]. rewrite IH; lia.
Qed.

Lemma take_front (a b : string) :
  Tags.take (String.length a) (a +:+ b) = a.
Proof.
  induction a as [|c a IH]; [by destruct b|].
  rewrite sapp_cons. simpl. by rewrite IH.
Qed.

Lemma truncate_long (value : string) (max : nat) :
  (max < String.length value)%nat →
  truncate value max = Tags.take max value +:+ "..."
  ∧ String.length (truncate value max) = (max + 3)%nat.
Proof.
  intros H. unfold truncate.
  destruct (Nat.leb_spec (String.length value) max); [lia|].
  split; [done|]. rewrite slength_app, take_all by lia. done.
Qed.

Lemma strip_unpadded (text : option string) :
  Privacy.unpadded (Privacy.stripPrivateContent text) = true.
Proof.
  destruct text as [t|]; [|done]. rewrite strip_some.
  by destruct (trim_spec (Privacy.replace_private 0 t))
    as (_ & _ & _ & _ & _ & U).
Qed.

End PluginMore.

(** X16: [truncate] returns a text of at most [max] code units as it is
    and cuts a longer one to its first [max] code units followed by
    three dots, so the result is never longer than [max + 3]; applied a
    second time with the same bound it changes nothing. *)
Theorem X16_truncate_bounds (value : string) (max : nat) :
  (String.length (Plugin.truncate value max) ≤ max + 3)%nat
  ∧ ((String.length value ≤ max)%nat → Plugin.truncate value max = value)
  ∧ ((max < String.length value)%nat →
     Plugin.truncate value max = Tags.take max value +:+ "...")
  ∧ Plugin.truncate (Plugin.truncate value max) max
    = Plugin.truncate value max.
Proof.
  destruct (Nat.leb_spec (String.length value) max) as [Short|L].
  - assert (Plugin.truncate value max = value) as E.
    { unfold Plugin.truncate.
      by destruct (Nat.leb_spec (String.length value) max); [|lia]. }
    rewrite !E. split; [lia|]. split; [done|]. split; [lia | done].
  - destruct (truncate_long value max L) as [E N].
    split; [lia|]. split; [lia|]. split; [done|].
    destruct (truncate_long (Plugin.truncate value max) max ltac:(lia))
      as [E' _].
    rewrite E'. rewrite E at 1.
    rewrite <- (take_all max value) at 1 by lia.
    by rewrite take_front.
Qed.

Lemma X16_truncate_bounds_witness :
  Plugin.truncate "abcdefgh" 3 = Tags.take 3 "abcdefgh" +:+ "...".
Proof.
  apply (proj1 (proj2 (proj2 (X16_truncate_bounds "abcdefgh" 3)))).
  vm_compute. lia.
Defined.

(** X17: the [add] mode asks for the configuration before it looks at
    its arguments, and makes at most one backend call; the content of
    that call is the stripped input, is not empty, has no white space at
    either end, and goes to the user tag for the scope "user" and to the
    project tag otherwise. *)
Theorem X17_add_stores_stripped_content
    (configured : bool) (tags : Tags.TagPair) (args : Plugin.AddArgs)
    (created : Injection.Settled string) :
  let result := Plugin.execute_add configured tags args created in
  (configured = false → result = (Plugin.NotConfigured, []))
  ∧ (∀ c tag ty,
       Plugin.MemoriesCreate c tag ty ∈ result.2 →
       configured = true
       ∧ c = Privacy.stripPrivateContent (Plugin.content args)
       ∧ c ≠ "" ∧ Privacy.unpadded c = true
       ∧ tag = (if bool_decide (Plugin.scope args = Some "user")
                then Tags.user tags else Tags.project tags)
       ∧ ty = Plugin.memoryType args
       ∧ result.2 = [Plugin.MemoriesCreate c tag ty]).
Proof.
  intros result. subst result. unfold Plugin.execute_add.
  split; [by intros ->|].
  intros c tag ty H.
  destruct configured; simpl in H; [|by apply elem_of_nil in H].
  cbn [negb] in *.
  destruct (negb (truthy (Plugin.content args)));
    [by apply elem_of_nil in H|].
  destruct (Privacy.isFullyPrivate (Plugin.content args)) eqn:F;
    [by apply elem_of_nil in H|].
  assert (Plugin.MemoriesCreate c tag ty
          = Plugin.MemoriesCreate
              (Privacy.stripPrivateContent (Plugin.content args))
              (Plugin.resolveContainerTag tags
                 (Some (default "project" (Plugin.scope args))))
              (Plugin.memoryType args)) as E.
  { destruct created; simpl in H; by apply list_elem_of_singleton in H. }
  injection E as -> -> ->.
  split; [done|]. split; [done|]. split.
  { intros Z. unfold Privacy.isFullyPrivate in F. by rewrite Z in F. }
  split; [apply strip_unpadded|]. split.
  { unfold Plugin.resolveContainerTag.
    destruct (Plugin.scope args) as [s|]; simpl; [|done].
    destruct (String.eqb_spec s "user") as [->|N].
    - by rewrite bool_decide_eq_true_2.
    - rewrite bool_decide_eq_false_2; [done | congruence]. }
  split; [done|]. by destruct created.
Qed.

Lemma X17_add_stores_stripped_content_witness :
  Plugin.execute_add false {| Tags.user := "u"; Tags.project := "p" |}
    {| Plugin.content := None; Plugin.scope := None;
       Plugin.memoryType := None |}
    Injection.Rejected
  = (Plugin.NotConfigured, []).
Proof.
  apply (proj1 (X17_add_stores_stripped_content false
                  {| Tags.user := "u"; Tags.project := "p" |}
                  {| Plugin.content := None; Plugin.scope := None;
                     Plugin.memoryType := None |}
                  Injection.Rejected)).
  reflexivity.
Defined.

Example add_strips_before_storing :
  Plugin.execute_add true {| Tags.user := "u"; Tags.project := "p" |}
    {| Plugin.content := Some " likes <private>secret</private>tea ";
       Plugin.scope := Some "user";
       Plugin.memoryType := Some "preference" |}
    (Injection.Resolved "mem_1")
  = (Plugin.Text "Memory stored successfully (ID: mem_1, scope: user).",
     [Plugin.MemoriesCreate "likes tea" "u" (Some "preference")]).
Proof. vm_compute. reflexivity. Qed.

(** ** Ingestion polling: no budget, failures, the first terminal status *)

Section PollerMore.
Import Poller Vocabulary.

Variable ingestionId : string.
Variables start timeoutMs pollIntervalMs : Z.

Lemma poll_through (pre rest : list Turn) :
  Forall (keeps_polling start timeoutMs) pre →
  (poll ingestionId start timeoutMs pollIntervalMs (pre ++ rest)).1
  = (poll ingestionId start timeoutMs pollIntervalMs rest).1
  ∧ queries (poll ingestionId start timeoutMs pollIntervalMs (pre ++ rest)).2
    = (length pre
       + queries (poll ingestionId start timeoutMs pollIntervalMs rest).2)%nat.
Proof.
  intros P. induction P as [|t pre [B (s & R & T)] P IH]; [done|].
  simpl. destruct (Z.ltb_spec (now t - start) timeoutMs); [|lia].
  rewrite R, T.
  destruct (poll ingestionId start timeoutMs pollIntervalMs (pre ++ rest))
    as [outcome log]; simpl in *.
  destruct IH as [-> ->]. done.
Qed.

End PollerMore.

(** X18: with a budget of zero or less and a clock that does not run
    backwards, [waitForIngestion] never asks the backend: it returns the
    synthetic status "processing" at once, whatever state the job is
    in. *)
Theorem X18_no_budget_no_request
    (ingestionId : string) (timeoutMs pollIntervalMs start : Z)
    (turn : Poller.Turn) (rest : list Poller.Turn) :
  timeoutMs ≤ 0 → start ≤ Poller.now turn →
  Poller.waitForIngestion ingestionId timeoutMs pollIntervalMs start
    (turn :: rest)
  = (Some (Poller.Returned Poller.processing), []).
Proof.
  intros T C. unfold Poller.waitForIngestion. simpl.
  by destruct (Z.ltb_spec (Poller.now turn - start) timeoutMs); [lia|].
Qed.

Lemma X18_no_budget_no_request_witness :
  Poller.waitForIngestion "ing-1" 0 1500 1700000000000
    (Sample.late 1700000000000 :: [])
  = (Some (Poller.Returned Poller.processing), []).
Proof.
  apply X18_no_budget_no_request; [lia | vm_compute; discriminate].
Defined.

(** X19: a status request that fails inside the budget is not absorbed:
    after any number of pending replies, the failure ends the wait and
    is passed on to the caller, one request having been made per turn
    and none after the failure. *)
Theorem X19_request_failure_is_raised
    (ingestionId : string) (timeoutMs pollIntervalMs start : Z)
    (pre : list Poller.Turn) (turn : Poller.Turn) (post : list Poller.Turn) :
  Forall (Vocabulary.keeps_polling start timeoutMs) pre →
  Poller.now turn - start < timeoutMs →
  Poller.reply turn = Poller.Throws →
  let result :=
    Poller.waitForIngestion ingestionId timeoutMs pollIntervalMs start
      (pre ++ turn :: post) in
  result.1 = Some Poller.Raised
  ∧ Vocabulary.queries result.2 = S (length pre).
Proof.
  intros P B R result. subst result. unfold Poller.waitForIngestion.
  destruct (poll_through ingestionId start timeoutMs pollIntervalMs pre
              (turn :: post) P) as [-> ->].
  simpl. destruct (Z.ltb_spec (Poller.now turn - start) timeoutMs); [|lia].
  rewrite R. simpl. split; [done | lia].
Qed.

Lemma X19_request_failure_is_raised_witness :
  (Poller.waitForIngestion "ing-1" 120000 1500 1700000000000
     ([Sample.pending]
        ++ {| Poller.now := 1700000002000; Poller.reply := Poller.Throws;
              Poller.replied_at := 1700000002100 |}
        :: [Sample.late 1700000003500])).1
  = Some Poller.Raised.
Proof.
  apply (X19_request_failure_is_raised "ing-1" 120000 1500 1700000000000
           [Sample.pending]
           {| Poller.now := 1700000002000; Poller.reply := Poller.Throws;
              Poller.replied_at := 1700000002100 |}
           [Sample.late 1700000003500]).
  - repeat constructor. eexists. split; reflexivity.
  - reflexivity.
  - reflexivity.
Defined.

(** X20: the first terminal status that comes back inside the budget is
    what [waitForIngestion] returns, with the title and the document id
    of that reply: after [n] pending replies it has made [n + 1]
    requests, and it looks at no later turn. *)
Theorem X20_first_terminal_status_is_returned
    (ingestionId : string) (timeoutMs pollIntervalMs start : Z)
    (pre : list Poller.Turn) (turn : Poller.Turn) (post : list Poller.Turn)
    (s : Poller.IngestionStatus) :
  Forall (Vocabulary.keeps_polling start timeoutMs) pre →
  Poller.now turn - start < timeoutMs →
  Poller.reply turn = Poller.Reports s →
  Poller.is_terminal (Poller.status s) = true →
  let result :=
    Poller.waitForIngestion ingestionId timeoutMs pollIntervalMs start
      (pre ++ turn :: post) in
  result.1 = Some (Poller.Returned s)
  ∧ Vocabulary.queries result.2 = S (length pre).
Proof.
  intros P B R T result. subst result. unfold Poller.waitForIngestion.
  destruct (poll_through ingestionId start timeoutMs pollIntervalMs pre
              (turn :: post) P) as [-> ->].
  simpl. destruct (Z.ltb_spec (Poller.now turn - start) timeoutMs); [|lia].
  rewrite R, T. simpl. split; [by destruct s | lia].
Qed.

Lemma X20_first_terminal_status_is_returned_witness :
  (Poller.waitForIngestion "ing-1" 120000 1500 1700000000000
     ([Sample.pending; Sample.pending]
        ++ Sample.late 1700000003500 :: [Sample.pending])).1
  = Some (Poller.Returned
            {| Poller.status := "completed"; Poller.title := Some "t";
               Poller.documentId := Some "doc-1" |}).
Proof.
  apply (X20_first_terminal_status_is_returned "ing-1" 120000 1500
           1700000000000 [Sample.pending; Sample.pending]
           (Sample.late 1700000003500) [Sample.pending]).
  - repeat constructor; eexists; split; reflexivity.
  - reflexivity.
  - reflexivity.
  - reflexivity.
Defined.

(** ** Injection hook: marking, the shape of the part, no configuration *)

Section InjectionMore.
Import Injection Vocabulary.

Lemma hook_configured_marks backend (S : gset string) input parts :
  sessionID input ∈ (chatMessageHook true backend S input parts).1.
Proof.
  unfold chatMessageHook.
  set (contextText := Context.formatContextForPrompt _ _ _).
  destruct (bool_decide (sessionID input ∈ S)) eqn:E.
  - by apply bool_decide_eq_true in E.
  - cbn [negb]. destruct (negb (truthy (Some contextText))); simpl;
      set_solver.
Qed.

Lemma hook_all_rejected (S : gset string) input parts backend :
  profile_compute backend = Rejected →
  search_user backend = Rejected →
  search_project backend = Rejected →
  (chatMessageHook true backend S input parts).2 = parts.
Proof.
  intros P U Q. unfold chatMessageHook. rewrite P, U, Q.
  by destruct (bool_decide (sessionID input ∈ S)).
Qed.

Lemma hook_unconfigured backend (S : gset string) input parts :
  chatMessageHook false backend S input parts = (S, parts).
Proof.
  unfold chatMessageHook.
  by destruct (bool_decide (sessionID input ∈ S)).
Qed.

End InjectionMore.

(** X21: a configured call marks its session whether or not it injects,
    so only the first call for a session can add a part and no later
    call does; in particular, when the three fetches of the first call
    are rejected, nothing is ever injected for that session, whatever
    the later calls fetch. *)
Theorem X21_first_call_decides
    (injectedSessions : gset string) (sid : string)
    (backend : Injection.Backend) (messageID : option string)
    (parts : list Injection.Part) (later : list Injection.Call) :
  let input :=
    {| Injection.sessionID := sid; Injection.messageID := messageID |} in
  let first := Vocabulary.call_for sid backend messageID parts in
  Injection.added_for sid
    (Injection.invoke_all (first :: later) injectedSessions).2
  = (length (Injection.chatMessageHook true backend injectedSessions input
               parts).2 - length parts)%nat
  ∧ (Injection.profile_compute backend = Injection.Rejected →
     Injection.search_user backend = Injection.Rejected →
     Injection.search_project backend = Injection.Rejected →
     Injection.added_for sid
       (Injection.invoke_all (first :: later) injectedSessions).2 = 0%nat).
Proof.
  intros input first.
  assert (Injection.added_for sid
            (Injection.invoke_all (first :: later) injectedSessions).2
          = (length (Injection.chatMessageHook true backend injectedSessions
                       input parts).2 - length parts)%nat) as E.
  { subst first input. unfold Vocabulary.call_for. rewrite invoke_all_cons.
    cbn [Injection.added_for Injection.call_input Injection.call_configured
         Injection.call_backend Injection.call_parts Injection.sessionID
         fst snd].
    rewrite String.eqb_refl.
    rewrite added_marked; [lia|].
    apply (hook_configured_marks backend injectedSessions
             {| Injection.sessionID := sid;
                Injection.messageID := messageID |} parts). }
  split; [exact E|]. intros P U Q. rewrite E.
  rewrite (hook_all_rejected injectedSessions input parts backend P U Q). lia.
Qed.

Lemma X21_first_call_decides_witness :
  Injection.added_for "s1"
    (Injection.invoke_all
       (Vocabulary.call_for "s1"
          {| Injection.profile_compute := Injection.Rejected;
             Injection.search_user := Injection.Rejected;
             Injection.search_project := Injection.Rejected |}
          (Some "m1") []
        :: [Vocabulary.call_for "s1"
              {| Injection.profile_compute :=
                   Injection.Resolved
                     {| Injection.narrative := Some "N";
                        Injection.staticFacts := [] |};
                 Injection.search_user := Injection.Rejected;
                 Injection.search_project := Injection.Rejected |}
              (Some "m2") []])
       ∅).2 = 0%nat.
Proof.
  apply (proj2 (X21_first_call_decides ∅ "s1"
                  {| Injection.profile_compute := Injection.Rejected;
                     Injection.search_user := Injection.Rejected;
                     Injection.search_project := Injection.Rejected |}
                  (Some "m1") [] _)); reflexivity.
Defined.

(** X22: a part that the hook puts in front of the list is a synthetic
    text part of the session, marked as coming from "momo-memory", with
    the id "momo-context-" followed by the session id and the message id
    of the call (the empty string when there is none); its text is never
    empty: it starts with the begin marker and ends with the end
    marker. *)
Theorem X22_injected_part_shape
    (configured : bool) (backend : Injection.Backend)
    (injectedSessions : gset string) (input : Injection.HookInput)
    (parts : list Injection.Part) (p : Injection.Part) :
  (Injection.chatMessageHook configured backend injectedSessions input
     parts).2 = p :: parts →
  Injection.part_id p = "momo-context-" +:+ Injection.sessionID input
  ∧ Injection.part_sessionID p = Injection.sessionID input
  ∧ Injection.part_messageID p = default "" (Injection.messageID input)
  ∧ Injection.part_type p = "text"
  ∧ Injection.part_synthetic p = true
  ∧ Injection.part_source p = "momo-memory"
  ∧ ∃ body,
      Injection.part_text p
      = Context.BEGIN_MARKER +:+ Context.nl +:+ Context.nl +:+ body
        +:+ Context.nl +:+ Context.nl +:+ Context.END_MARKER.
Proof.
  assert (∀ l : list Injection.Part, l ≠ p :: l) as N.
  { intros l E. apply (f_equal length) in E. simpl in E. lia. }
  unfold Injection.chatMessageHook.
  set (contextText := Context.formatContextForPrompt _ _ _).
  destruct (bool_decide _); [intros E; by apply N in E|].
  destruct configured; [|intros E; by apply N in E].
  cbn [negb]. destruct (truthy (Some contextText)) eqn:T;
    [|intros E; by apply N in E].
  cbn [negb snd]. intros [= <-]. cbn.
  repeat split.
  subst contextText. rewrite format_by_sections in *.
  destruct (Context.sections_in_order _ _ _) as [|s ss]; [discriminate T|].
  by eexists.
Qed.

Lemma X22_injected_part_shape_witness :
  ∃ body,
    "[MOMO MEMORY - Context from previous sessions]" +:+ Context.nl
    +:+ Context.nl +:+ "## User Profile" +:+ Context.nl +:+ "N"
    +:+ Context.nl +:+ Context.nl +:+ "[END MOMO MEMORY]"
    = Context.BEGIN_MARKER +:+ Context.nl +:+ Context.nl +:+ body
      +:+ Context.nl +:+ Context.nl +:+ Context.END_MARKER.
Proof.
  apply (X22_injected_part_shape true
           {| Injection.profile_compute :=
                Injection.Resolved
                  {| Injection.narrative := Some "N";
                     Injection.staticFacts := [] |};
              Injection.search_user := Injection.Rejected;
              Injection.search_project := Injection.Rejected |}
           ∅
           {| Injection.sessionID := "s1"; Injection.messageID := None |}
           []
           {| Injection.part_id := "momo-context-s1";
              Injection.part_sessionID := "s1";
              Injection.part_messageID := "";
              Injection.part_type := "text";
              Injection.part_text :=
                "[MOMO MEMORY - Context from previous sessions]"
                +:+ Context.nl +:+ Context.nl +:+ "## User Profile"
                +:+ Context.nl +:+ "N" +:+ Context.nl +:+ Context.nl
                +:+ "[END MOMO MEMORY]";
              Injection.part_synthetic := true;
              Injection.part_source := "momo-memory" |}).
  vm_compute. reflexivity.
Defined.

(** X23: a plugin that is not configured never injects and never marks
    a session: after any sequence of calls without a client, the set of
    injected sessions is what it was and no part was added for any
    session. *)
Theorem X23_unconfigured_hook_does_nothing
    (calls : list Injection.Call) (injectedSessions : gset string)
    (sid : string) :
  Forall (λ c, Injection.call_configured c = false) calls →
  (Injection.invoke_all calls injectedSessions).1 = injectedSessions
  ∧ Injection.added_for sid
      (Injection.invoke_all calls injectedSessions).2 = 0%nat.
Proof.
  intros H. induction H as [|c rest C _ [IH1 IH2]]; [done|].
  rewrite invoke_all_cons. simpl. rewrite C.
  rewrite hook_unconfigured in *. simpl in *.
  destruct (Injection.invoke_all rest injectedSessions) as [final log] eqn:E.
  simpl in *. split; [done|]. rewrite IH2.
  destruct (String.eqb _ sid); lia.
Qed.

Lemma X23_unconfigured_hook_does_nothing_witness :
  (Injection.invoke_all
     [{| Injection.call_configured := false;
         Injection.call_backend :=
           {| Injection.profile_compute := Injection.Rejected;
              Injection.search_user := Injection.Rejected;
              Injection.search_project := Injection.Rejected |};
         Injection.call_input :=
           {| Injection.sessionID := "s1";
              Injection.messageID := Some "m1" |};
         Injection.call_parts := [] |}]
     ∅).1 = ∅
  ∧ Injection.added_for "s1"
      (Injection.invoke_all
         [{| Injection.call_configured := false;
             Injection.call_backend :=
               {| Injection.profile_compute := Injection.Rejected;
                  Injection.search_user := Injection.Rejected;
                  Injection.search_project := Injection.Rejected |};
             Injection.call_input :=
               {| Injection.sessionID := "s1";
                  Injection.messageID := Some "m1" |};
             Injection.call_parts := [] |}]
         ∅).2 = 0%nat.
Proof.
  apply X23_unconfigured_hook_does_nothing. repeat constructor.
Defined.

(** ** The command line *)

Section CliArgsMore.
Import CliArgs.

(** The five ways one turn of the loop goes on. *)
Lemma parse_from_step (arg : string) (rest : list string)
    (command : option string) (flags : Flags) :
  ∃ (argv' : list string) (command' : option string) (flags' : Flags),
    parse_from (arg :: rest) command flags = parse_from argv' command' flags'
    ∧ (argv' = rest ∨ ∃ value, rest = value :: argv')
    ∧ (command' = command
       ∨ (command' = Some arg ∧ truthy command = false
          ∧ Privacy.starts_with "-" arg = false)).
Proof.
  cbn [parse_from].
  destruct (String.eqb arg "--help" || String.eqb arg "-h");
    [by eexists _, _, _; split; [reflexivity | split; left]|].
  destruct (String.eqb arg "--yes" || String.eqb arg "-y");
    [by eexists _, _, _; split; [reflexivity | split; left]|].
  destruct (String.eqb arg "--no-prompt");
    [by eexists _, _, _; split; [reflexivity | split; left]|].
  assert (∃ command',
            (if negb (Privacy.starts_with "-" arg) && negb (truthy command)
             then parse_from rest (Some arg) flags
             else parse_from rest command flags)
            = parse_from rest command' flags
            ∧ (command' = command
               ∨ (command' = Some arg ∧ truthy command = false
                  ∧ Privacy.starts_with "-" arg = false))) as P.
  { destruct (Privacy.starts_with "-" arg), (truthy command); simpl;
      eexists; split; try reflexivity; auto. }
  destruct P as (c' & E & C).
  destruct rest as [|value rest'].
  - exists [], c', flags. split; [exact E | split; [by left | exact C]].
  - destruct (String.eqb arg "--base-url");
      [eexists _, _, _; split; [reflexivity | split; [right; eauto | by left]]|].
    destruct (String.eqb arg "--api-key");
      [eexists _, _, _; split; [reflexivity | split; [right; eauto | by left]]|].
    exists (value :: rest'), c', flags.
    split; [exact E | split; [by left | exact C]].
Qed.

(** Induction on what is left of the arguments, one or two at a time. *)
Lemma parse_from_command (n : nat) (argv : list string)
    (command : option string) (flags : Flags) :
  (length argv ≤ n)%nat →
  let result := (parse_from argv command flags).1 in
  (truthy command = true → result = command)
  ∧ (result = command
     ∨ ∃ c, result = Some c ∧ c ∈ argv
            ∧ Privacy.starts_with "-" c = false).
Proof.
  revert argv command flags.
  induction n as [|n IH]; intros argv command flags L result;
    subst result.
  - destruct argv; [|simpl in L; lia]. simpl. split; [done | by left].
  - destruct argv as [|arg rest]; [simpl; split; [done | by left]|].
    destruct (parse_from_step arg rest command flags)
      as (argv' & c' & f' & -> & A & C).
    assert (length argv' ≤ n)%nat as L'.
    { destruct A as [-> | [v ->]]; simpl in L |- *; lia. }
    assert (∀ x, x ∈ argv' → x ∈ arg :: rest) as Sub.
    { intros x Hx. apply list_elem_of_further.
      destruct A as [-> | [v ->]]; [done | by apply list_elem_of_further]. }
    destruct (IH argv' c' f' L') as [K D]. split.
    + intros T. destruct C as [-> | (_ & F & _)]; [by apply K | congruence].
    + destruct D as [-> | (c & -> & I & S)].
      * destruct C as [-> | (-> & _ & S)]; [by left|].
        right. exists arg. split; [done|]. split; [apply list_elem_of_here|done].
      * right. exists c. split; [done|]. split; [by apply Sub | done].
Qed.

Lemma parse_from_flags_irrelevant (n : nat) (argv : list string)
    (command : option string) (f1 f2 : Flags) :
  (length argv ≤ n)%nat →
  (parse_from argv command f1).1 = (parse_from argv command f2).1.
Proof.
  revert argv command f1 f2.
  induction n as [|n IH]; intros argv command f1 f2 L.
  - destruct argv; [done | simpl in L; lia].
  - destruct argv as [|arg rest]; [done|]. cbn [parse_from].
    simpl in L.
    destruct (String.eqb arg "--help" || String.eqb arg "-h");
      [apply IH; lia|].
    destruct (String.eqb arg "--yes" || String.eqb arg "-y");
      [apply IH; lia|].
    destruct (String.eqb arg "--no-prompt"); [apply IH; lia|].
    destruct rest as [|value rest'].
    + destruct (negb (Privacy.starts_with "-" arg) && negb (truthy command));
        apply IH; simpl; lia.
    + simpl in L.
      destruct (String.eqb arg "--base-url"); [apply IH; lia|].
      destruct (String.eqb arg "--api-key"); [apply IH; lia|].
      destruct (negb (Privacy.starts_with "-" arg) && negb (truthy command));
        apply IH; simpl; lia.
Qed.

Lemma word_is_no_option (word option : string) :
  Privacy.starts_with "-" word = false →
  Privacy.starts_with "-" option = true →
  String.eqb word option = false.
Proof.
  intros W O. destruct (String.eqb_spec word option) as [->|]; congruence.
Qed.

(** An argument that is not one of the two options with a value is
    handled the same whether or not another argument follows. *)
Lemma parse_from_plain (arg : string) (rest : list string)
    (command : option string) (flags : Flags) :
  arg ≠ "--base-url" → arg ≠ "--api-key" →
  ∃ (command' : option string) (flags' : Flags),
    ∀ tail : list string,
      parse_from (arg :: rest ++ tail) command flags
      = parse_from (rest ++ tail) command' flags'.
Proof.
  intros B K.
  apply String.eqb_neq in B. apply String.eqb_neq in K.
  destruct (String.eqb arg "--help" || String.eqb arg "-h") eqn:H;
    [eexists _, _; intros tail; cbn [parse_from]; by rewrite H|].
  destruct (String.eqb arg "--yes" || String.eqb arg "-y") eqn:Y;
    [eexists _, _; intros tail; cbn [parse_from]; by rewrite H, Y|].
  destruct (String.eqb arg "--no-prompt") eqn:N;
    [eexists _, _; intros tail; cbn [parse_from]; by rewrite H, Y, N|].
  destruct (negb (Privacy.starts_with "-" arg) && negb (truthy command))
    eqn:W; eexists _, _; intros tail; cbn [parse_from];
    rewrite H, Y, N, B, K, W; by destruct (rest ++ tail).
Qed.

(** Arguments none of which is an option with a value lead the loop to
    a state that does not depend on what follows them. *)
Lemma parse_from_front (front : list string) (command : option string)
    (flags : Flags) :
  Forall (λ arg, arg ≠ "--base-url" ∧ arg ≠ "--api-key") front →
  ∃ (command' : option string) (flags' : Flags),
    ∀ tail : list string,
      parse_from (front ++ tail) command flags
      = parse_from tail command' flags'.
Proof.
  intros F. revert command flags.
  induction F as [|arg front [B K] F IH]; intros command flags.
  - by exists command, flags.
  - destruct (parse_from_plain arg front command flags B K)
      as (c1 & f1 & S1).
    destruct (IH c1 f1) as (c2 & f2 & S2).
    exists c2, f2. intros tail.
    rewrite <- app_comm_cons, S1. apply S2.
Qed.

(** An option with a value and the value are passed over together. *)
Lemma parse_from_option (command : option string) (flags : Flags)
    (option value : string) (rest : list string) :
  option = "--base-url" ∨ option = "--api-key" →
  (parse_from (option :: value :: rest) command flags).1
  = (parse_from rest command flags).1.
Proof.
  intros [-> | ->]; cbn [parse_from]; simpl;
    apply (parse_from_flags_irrelevant (length rest)); lia.
Qed.

End CliArgsMore.

(** X24: the command that [parseArgs] finds, if any, is one of the
    arguments and does not start with a dash; the first argument, when
    it is a non-empty word without a leading dash, is the command
    whatever follows; and the value after [--base-url] or [--api-key] is
    skipped, wherever the option stands: from any state of the loop the
    option and its value leave the command as it is, and after any
    arguments none of which is one of these two options, the command
    found is the one found with the option and its value taken out. *)
Theorem X24_parseArgs_command :
  (∀ (argv : list string) (c : string),
     (CliArgs.parseArgs argv).1 = Some c →
     c ∈ argv ∧ Privacy.starts_with "-" c = false)
  ∧ (∀ (word : string) (rest : list string),
       word ≠ "" → Privacy.starts_with "-" word = false →
       (CliArgs.parseArgs (word :: rest)).1 = Some word)
  ∧ (∀ (command : option string) (flags : CliArgs.Flags)
       (option value : string) (rest : list string),
       option = "--base-url" ∨ option = "--api-key" →
       (CliArgs.parse_from (option :: value :: rest) command flags).1
       = (CliArgs.parse_from rest command flags).1)
  ∧ (∀ (front : list string) (option value : string) (rest : list string),
       Forall (λ arg, arg ≠ "--base-url" ∧ arg ≠ "--api-key") front →
       option = "--base-url" ∨ option = "--api-key" →
       (CliArgs.parseArgs (front ++ option :: value :: rest)).1
       = (CliArgs.parseArgs (front ++ rest)).1).
Proof.
  split; [|split; [|split]].
  - intros argv c E. unfold CliArgs.parseArgs in E.
    destruct (parse_from_command (length argv) argv None CliArgs.no_flags
                ltac:(lia)) as [_ [D | (c' & D & I & S)]];
      rewrite D in E; [discriminate|].
    injection E as <-. done.
  - intros word rest N S. unfold CliArgs.parseArgs.
    assert (parse_from_word :
              CliArgs.parse_from (word :: rest) None CliArgs.no_flags
              = CliArgs.parse_from rest (Some word) CliArgs.no_flags).
    { cbn [CliArgs.parse_from].
      rewrite (word_is_no_option word "--help" S eq_refl),
        (word_is_no_option word "-h" S eq_refl),
        (word_is_no_option word "--yes" S eq_refl),
        (word_is_no_option word "-y" S eq_refl),
        (word_is_no_option word "--no-prompt" S eq_refl),
        (word_is_no_option word "--base-url" S eq_refl),
        (word_is_no_option word "--api-key" S eq_refl), S.
      simpl. by destruct rest. }
    rewrite parse_from_word.
    destruct (parse_from_command (length rest) rest (Some word)
                CliArgs.no_flags ltac:(lia)) as [K _].
    apply K. by destruct word.
  - intros command flags option value rest O. by apply parse_from_option.
  - intros front option value rest F O. unfold CliArgs.parseArgs.
    destruct (parse_from_front front None CliArgs.no_flags F)
      as (command & flags & S).
    rewrite !S. by apply parse_from_option.
Qed.

Lemma X24_parseArgs_command_witness :
  (CliArgs.parseArgs (["--yes"] ++ "--api-key" :: "install" :: ["status"])).1
  = (CliArgs.parseArgs (["--yes"] ++ ["status"])).1.
Proof.
  apply (proj2 (proj2 (proj2 X24_parseArgs_command))).
  - repeat constructor; discriminate.
  - by right.
Defined.

Example parseArgs_skips_the_value_after_an_option :
  (CliArgs.parseArgs ["--yes"; "--api-key"; "install"]).1 = None
  ∧ (CliArgs.parseArgs ["configure"; "--api-key"; "install"]).1
    = Some "configure".
Proof. by vm_compute. Qed.
